(** * PocketDB: a shallow embedding of the store engine (pocketdb.py)

    The engine is a Python class holding two dictionaries ([_data],
    [_ttl]) and a dictionary of counters ([_stats]).  Every method is
    embedded as a function in a small state-and-exception monad over the
    object's fields: a raised exception keeps whatever the method had
    already written, exactly as in Python.

    Modelling choices:
    - a Python [dict] is an insertion-ordered association list with the
      dictionary operations written out ([Dict.set] overwrites in place
      or appends, [Dict.del] removes the entry);
    - [time.time()] is an input of every method that reads the clock;
      instants are exact integers (the rounding of floating-point
      addition is not modelled);
    - [str] is a byte string; only ASCII white space is known to [strip];
    - the re-entrant lock is not modelled: methods run one at a time, and
      the auto-save thread is an ordinary [save_to_disk] call placed
      between two caller operations ([_worker] and [schedule] spell this
      out: the worker is a small state machine whose save, taken under
      the lock, is one step among the caller's);
    - [fnmatch.fnmatch] belongs to Python's library and is a parameter of
      [keys]. *)

From Stdlib Require Import String Ascii List ZArith QArith Bool Lia.
From Stdlib Require Import NArith DecimalString DecimalNat.
Import ListNotations.
Set Warnings "-register-all".
Local Open Scope string_scope.
Local Open Scope Z_scope.

(** ** Python values *)

(** What a caller can pass as a key, a value, a TTL or a default. [PObject]
    stands for anything that is not plain data (a function, an open
    handle); [PBool] is, as in Python, an instance of [int]. *)
Inductive pyval : Type :=
| PNone
| PBool (b : bool)
| PInt (z : Z)
| PFloat (q : Q)
| PStr (s : string)
| PList (l : list pyval)
| PDict (d : list (pyval * pyval))
| PObject (id : nat).

(** [isinstance(v, int)], giving the integer when it holds. *)
Definition isinstance_int (v : pyval) : option Z :=
  match v with
  | PInt z => Some z
  | PBool b => Some (Z.b2z b)
  | _ => None
  end.

(** The keys [json.dumps] accepts in a mapping. *)
Definition json_key_ok (k : pyval) : bool :=
  match k with
  | PNone | PBool _ | PInt _ | PFloat _ | PStr _ => true
  | _ => false
  end.

(** [json.dumps(v)] returns (rather than raising [TypeError]). *)
Fixpoint json_dumps_ok (v : pyval) : bool :=
  match v with
  | PNone | PBool _ | PInt _ | PFloat _ | PStr _ => true
  | PList l => forallb json_dumps_ok l
  | PDict d =>
      forallb (fun kv => match kv with
                         | (k, x) => json_key_ok k && json_dumps_ok x
                         end) d
  | PObject _ => false
  end.

(** ** Strings *)

(** [str.isspace] on one ASCII character: TAB..CR, FS..US and the space. *)
Definition isspace (c : ascii) : bool :=
  let n := Z.of_nat (nat_of_ascii c) in
  ((9 <=? n) && (n <=? 13)) || ((28 <=? n) && (n <=? 32)).

Fixpoint lstrip (s : string) : string :=
  match s with
  | EmptyString => EmptyString
  | String c s' => if isspace c then lstrip s' else s
  end.

Fixpoint rev_string (s acc : string) : string :=
  match s with
  | EmptyString => acc
  | String c s' => rev_string s' (String c acc)
  end.

Definition strip (s : string) : string :=
  rev_string (lstrip (rev_string (lstrip s) EmptyString)) EmptyString.

(** ["*" in pattern]. *)
Fixpoint contains_char (c : ascii) (s : string) : bool :=
  match s with
  | EmptyString => false
  | String d s' => Ascii.eqb d c || contains_char c s'
  end.

(** ** Dictionaries *)

Module Dict.

Definition dict (V : Type) : Type := list (string * V).

Section Ops.
Context {V : Type}.

(** [d.get(k)] *)
Fixpoint get (k : string) (d : dict V) : option V :=
  match d with
  | [] => None
  | (k', v) :: d' => if String.eqb k' k then Some v else get k d'
  end.

(** [k in d] *)
Definition mem (k : string) (d : dict V) : bool :=
  match get k d with Some _ => true | None => false end.

(** [d[k] = v]: an existing key keeps its position, a new one goes last. *)
Fixpoint set (k : string) (v : V) (d : dict V) : dict V :=
  match d with
  | [] => [(k, v)]
  | (k', v') :: d' =>
      if String.eqb k' k then (k, v) :: d' else (k', v') :: set k v d'
  end.

(** [del d[k]], for a key that is present. *)
Definition del (k : string) (d : dict V) : dict V :=
  filter (fun kv => negb (String.eqb (fst kv) k)) d.

Definition keys (d : dict V) : list string := map fst d.
Definition values (d : dict V) : list V := map snd d.
End Ops.

End Dict.

Abbreviation dict := Dict.dict.

(** ** Exceptions and the method monad *)

Inductive exn : Type :=
| PocketDBInvalidKeyError
| PocketDBInvalidValueError
| PocketDBKeyNotFoundError
| PocketDBDiskError
| KeyError.

Inductive outcome (A : Type) : Type :=
| Return (a : A)
| Raise (e : exn).
Arguments Return {A} a.
Arguments Raise {A} e.

(** The counters of [self._stats]. *)
Record Stats : Type := mkStats {
  gets : Z;
  sets : Z;
  deletes : Z;
  hits : Z;
  misses : Z;
  expired : Z
}.

(** The fields of a [PocketDB] object. *)
Record PocketDB : Type := mkDB {
  name : string;
  default_filename : string;
  _data : dict pyval;
  _ttl : dict Z;
  _stats : Stats;
  _is_running : bool
}.

(** A method body: it reads and writes the object and returns or raises. *)
Definition M (A : Type) : Type := PocketDB -> outcome A * PocketDB.

Definition ret {A} (a : A) : M A := fun db => (Return a, db).
Definition raise {A} (e : exn) : M A := fun db => (Raise e, db).
Definition bind {A B} (c : M A) (k : A -> M B) : M B :=
  fun db =>
    match c db with
    | (Return a, db') => k a db'
    | (Raise e, db') => (Raise e, db')
    end.
Definition self : M PocketDB := fun db => (Return db, db).
Definition modify (f : PocketDB -> PocketDB) : M unit :=
  fun db => (Return tt, f db).

Declare Scope py_scope.
Delimit Scope py_scope with py.
Notation "x <- c ;; k" := (bind c (fun x => k))
  (at level 61, c at next level, right associativity) : py_scope.
Notation "c ;; k" := (bind c (fun _ => k))
  (at level 61, right associativity) : py_scope.
Local Open Scope py_scope.

(** Field assignments. *)
Definition with_data (d : dict pyval) (db : PocketDB) : PocketDB :=
  mkDB (name db) (default_filename db) d (_ttl db) (_stats db) (_is_running db).
Definition with_ttl (t : dict Z) (db : PocketDB) : PocketDB :=
  mkDB (name db) (default_filename db) (_data db) t (_stats db) (_is_running db).
Definition with_stats (s : Stats) (db : PocketDB) : PocketDB :=
  mkDB (name db) (default_filename db) (_data db) (_ttl db) s (_is_running db).
Definition with_running (b : bool) (db : PocketDB) : PocketDB :=
  mkDB (name db) (default_filename db) (_data db) (_ttl db) (_stats db) b.

(** [self._stats[c] += 1] for each counter the engine touches. *)
Definition incr_gets (s : Stats) : Stats :=
  mkStats (gets s + 1) (sets s) (deletes s) (hits s) (misses s) (expired s).
Definition incr_deletes (s : Stats) : Stats :=
  mkStats (gets s) (sets s) (deletes s + 1) (hits s) (misses s) (expired s).
Definition incr_hits (s : Stats) : Stats :=
  mkStats (gets s) (sets s) (deletes s) (hits s + 1) (misses s) (expired s).
Definition incr_misses (s : Stats) : Stats :=
  mkStats (gets s) (sets s) (deletes s) (hits s) (misses s + 1) (expired s).
Definition incr_expired (s : Stats) : Stats :=
  mkStats (gets s) (sets s) (deletes s) (hits s) (misses s) (expired s + 1).

Definition bump (f : Stats -> Stats) : M unit :=
  modify (fun db => with_stats (f (_stats db)) db).

(** [del self._data[key]] and [del self._ttl[key]]: [KeyError] when absent. *)
Definition del_data (key : string) : M unit :=
  fun db =>
    if Dict.mem key (_data db)
    then (Return tt, with_data (Dict.del key (_data db)) db)
    else (Raise KeyError, db).

Definition del_ttl (key : string) : M unit :=
  fun db =>
    if Dict.mem key (_ttl db)
    then (Return tt, with_ttl (Dict.del key (_ttl db)) db)
    else (Raise KeyError, db).

(** ** The engine *)

(** [PocketDB.__init__] (the auto-save thread it starts is not part of the
    object's data). *)
Definition __init__ (name : string) : PocketDB :=
  mkDB name (name ++ ".pdb") [] [] (mkStats 0 0 0 0 0 0) true.

(** [_validate_key]: the key must be a [str] that is not blank.  On success
    the key is handed back as the string it was checked to be. *)
Definition _validate_key (key : pyval) : M string :=
  match key with
  | PStr s =>
      if String.eqb (strip s) "" then raise PocketDBInvalidKeyError
      else ret s
  | _ => raise PocketDBInvalidKeyError
  end.

(** [_validate_value]: [json.dumps] must accept the value. *)
Definition _validate_value (value : pyval) : M unit :=
  if json_dumps_ok value then ret tt else raise PocketDBInvalidValueError.

(** First loop of [_prune_expired]: the keys whose expiry is strictly
    before the clock reading, in the order of [self._ttl]. *)
Definition expired_keys (system_time : Z) (ttl : dict Z) : list string :=
  map fst (filter (fun ke => system_time >? snd ke) ttl).

(** Second loop of [_prune_expired]. *)
Fixpoint prune_loop (ks : list string) : M unit :=
  match ks with
  | [] => ret tt
  | key :: ks' =>
      del_data key ;;
      del_ttl key ;;
      bump incr_expired ;;
      prune_loop ks'
  end.

Definition _prune_expired (system_time : Z) : M unit :=
  db <- self ;;
  prune_loop (expired_keys system_time (_ttl db)).

(** [set(key, value, ttl)]. [now] is the clock read by the prune, [now']
    the one read for the expiry. *)
Definition set (key value ttl : pyval) (now now' : Z) : M bool :=
  k <- _validate_key key ;;
  _validate_value value ;;
  _prune_expired now ;;
  modify (fun db => with_data (Dict.set k value (_data db)) db) ;;
  match isinstance_int ttl with
  | Some t =>
      if t <=? 0 then raise PocketDBInvalidValueError
      else modify (fun db => with_ttl (Dict.set k (now' + t) (_ttl db)) db)
  | None =>
      db <- self ;;
      if Dict.mem k (_ttl db) then del_ttl k else ret tt
  end ;;
  ret true.

(** [get(key, default_value)]; [default_value] is [PNone] when the caller
    gives none. *)
Definition get (key default_value : pyval) (now : Z) : M pyval :=
  k <- _validate_key key ;;
  _prune_expired now ;;
  db <- self ;;
  match Dict.get k (_data db) with
  | Some v =>
      bump incr_gets ;;
      bump incr_hits ;;
      ret v
  | None =>
      bump incr_gets ;;
      bump incr_misses ;;
      match default_value with
      | PNone => raise PocketDBKeyNotFoundError
      | d => ret d
      end
  end.

(** [delete(key)]: [False] for a key that is absent. *)
Definition delete (key : pyval) (now : Z) : M bool :=
  k <- _validate_key key ;;
  _prune_expired now ;;
  db <- self ;;
  if Dict.mem k (_data db) then
    del_data k ;;
    (db' <- self ;; if Dict.mem k (_ttl db') then del_ttl k else ret tt) ;;
    bump incr_deletes ;;
    ret true
  else ret false.

(** [exists(key)] ([exists] is a reserved word here). *)
Definition exists_ (key : pyval) (now : Z) : M bool :=
  k <- _validate_key key ;;
  _prune_expired now ;;
  db <- self ;;
  ret (Dict.mem k (_data db)).

Definition size (now : Z) : M Z :=
  _prune_expired now ;;
  db <- self ;;
  ret (Z.of_nat (length (_data db))).

Definition values (now : Z) : M (list pyval) :=
  _prune_expired now ;;
  db <- self ;;
  ret (Dict.values (_data db)).

Definition items (now : Z) : M (list (string * pyval)) :=
  _prune_expired now ;;
  db <- self ;;
  ret (_data db).

Definition reset : M unit :=
  modify (fun db => with_ttl [] (with_data [] db)).

(** [keys(pattern)]: the gate on ["*"] decides between the library's
    matcher and plain equality. *)
Definition keys (fnmatch : string -> string -> bool) (pattern : string)
    (now : Z) : M (list string) :=
  _prune_expired now ;;
  db <- self ;;
  if String.eqb pattern "*" then ret (Dict.keys (_data db))
  else if contains_char "*"%char pattern then
    ret (filter (fun key => fnmatch key pattern) (Dict.keys (_data db)))
  else
    ret (filter (fun key => String.eqb key pattern) (Dict.keys (_data db))).

(** The record [stats()] returns; [hit_rate] is the exact quotient. *)
Record StatsReport : Type := mkReport {
  r_size : Z;
  r_ttl_keys : Z;
  r_gets : Z;
  r_sets : Z;
  r_deletes : Z;
  r_hits : Z;
  r_misses : Z;
  r_expired : Z;
  r_hit_rate : Q
}.

Definition stats (now : Z) : M StatsReport :=
  _prune_expired now ;;
  db <- self ;;
  let st := _stats db in
  let hit_rate :=
    if gets st >? 0 then Qmake (hits st) (Z.to_pos (gets st)) else 0%Q in
  ret (mkReport (Z.of_nat (length (_data db))) (Z.of_nat (length (_ttl db)))
         (gets st) (sets st) (deletes st) (hits st) (misses st) (expired st)
         hit_rate).

(** ** Snapshots *)

(** The dictionary [save_to_disk] pickles.  [save_to_disk] always writes
    the three entries; a file from elsewhere may lack ['ttl'] or
    ['stats'], for which [load_from_disk] has defaults.  (A pickle without
    ['data'], or whose entries are not dictionaries, is outside this
    typed model.) *)
Record Backup : Type := mkBackup {
  b_data : dict pyval;
  b_ttl : option (dict Z);
  b_stats : option Stats
}.

(** What a path holds: bytes [pickle.load] rejects, or a pickled backup. *)
Inductive file : Type :=
| Corrupt
| Pickle (b : Backup).

Definition Disk : Type := dict file.

(** What the operating system does with the write of one [save_to_disk]. *)
Inductive io_outcome : Type :=
| IoOk
| OpenFails
| DumpFails.

Definition resolve (filename : option string) (db : PocketDB) : string :=
  match filename with
  | None => default_filename db
  | Some f => f
  end.

(** [save_to_disk]: every exception, the prune's included, is re-raised as
    [PocketDBDiskError]. *)
Definition save_to_disk (filename : option string) (now : Z)
    (io : io_outcome) (disk : Disk) (db : PocketDB)
    : outcome bool * PocketDB * Disk :=
  let filename := resolve filename db in
  match _prune_expired now db with
  | (Raise _, db1) => (Raise PocketDBDiskError, db1, disk)
  | (Return _, db1) =>
      let backup :=
        mkBackup (_data db1) (Some (_ttl db1)) (Some (_stats db1)) in
      match io with
      | OpenFails => (Raise PocketDBDiskError, db1, disk)
      | DumpFails =>
          (Raise PocketDBDiskError, db1, Dict.set filename Corrupt disk)
      | IoOk => (Return true, db1, Dict.set filename (Pickle backup) disk)
      end
  end.

(** [load_from_disk]: the three fields are assigned, then pruned; every
    exception is re-raised as [PocketDBDiskError]. *)
Definition load_from_disk (filename : option string) (now : Z)
    (disk : Disk) (db : PocketDB) : outcome bool * PocketDB :=
  let filename := resolve filename db in
  match Dict.get filename disk with
  | None => (Raise PocketDBDiskError, db)
  | Some Corrupt => (Raise PocketDBDiskError, db)
  | Some (Pickle backup) =>
      let db1 := with_data (b_data backup) db in
      let db2 :=
        with_ttl (match b_ttl backup with Some t => t | None => [] end) db1 in
      let db3 :=
        with_stats (match b_stats backup with
                    | Some s => s
                    | None => _stats db2
                    end) db2 in
      match _prune_expired now db3 with
      | (Raise _, db4) => (Raise PocketDBDiskError, db4)
      | (Return _, db4) => (Return true, db4)
      end
  end.

(** [quit]: stop the auto-save loop and save to the default file. *)
Definition quit (now : Z) (io : io_outcome) (disk : Disk) (db : PocketDB)
    : outcome bool * PocketDB * Disk :=
  save_to_disk None now io disk (with_running false db).

(** ** Sequences of calls *)

(** One call of a public method, with the clock readings it makes and, for
    a write to disk, what the operating system does with it. *)
Inductive call : Type :=
| CallSet (key value ttl : pyval) (now now' : Z)
| CallGet (key default_value : pyval) (now : Z)
| CallDelete (key : pyval) (now : Z)
| CallExists (key : pyval) (now : Z)
| CallSize (now : Z)
| CallKeys (pattern : string) (now : Z)
| CallValues (now : Z)
| CallItems (now : Z)
| CallReset
| CallStats (now : Z)
| CallSave (filename : option string) (now : Z) (io : io_outcome)
| CallLoad (filename : option string) (now : Z)
| CallQuit (now : Z) (io : io_outcome).

Inductive result : Type :=
| RNone
| RBool (b : bool)
| RInt (z : Z)
| RValue (v : pyval)
| RKeys (l : list string)
| RValues (l : list pyval)
| RItems (l : list (string * pyval))
| RStats (r : StatsReport).

Definition in_memory {A} (f : A -> result) (c : M A) (disk : Disk)
    (db : PocketDB) : outcome result * PocketDB * Disk :=
  match c db with
  | (Return a, db') => (Return (f a), db', disk)
  | (Raise e, db') => (Raise e, db', disk)
  end.

Definition on_disk (r : outcome bool * PocketDB * Disk)
    : outcome result * PocketDB * Disk :=
  match r with
  | (Return b, db', disk') => (Return (RBool b), db', disk')
  | (Raise e, db', disk') => (Raise e, db', disk')
  end.

Section Calls.
Variable fnmatch : string -> string -> bool.

Definition step (c : call) (disk : Disk) (db : PocketDB)
    : outcome result * PocketDB * Disk :=
  match c with
  | CallSet key value ttl now now' =>
      in_memory RBool (set key value ttl now now') disk db
  | CallGet key d now => in_memory RValue (get key d now) disk db
  | CallDelete key now => in_memory RBool (delete key now) disk db
  | CallExists key now => in_memory RBool (exists_ key now) disk db
  | CallSize now => in_memory RInt (size now) disk db
  | CallKeys pattern now => in_memory RKeys (keys fnmatch pattern now) disk db
  | CallValues now => in_memory RValues (values now) disk db
  | CallItems now => in_memory RItems (items now) disk db
  | CallReset => in_memory (fun _ => RNone) reset disk db
  | CallStats now => in_memory RStats (stats now) disk db
  | CallSave filename now io => on_disk (save_to_disk filename now io disk db)
  | CallLoad filename now =>
      match load_from_disk filename now disk db with
      | (Return b, db') => (Return (RBool b), db', disk)
      | (Raise e, db') => (Raise e, db', disk)
      end
  | CallQuit now io => on_disk (quit now io disk db)
  end.

(** The object and the disk after a sequence of calls; a call that raises
    leaves its partial effect and the caller goes on. *)
Fixpoint run (cs : list call) (disk : Disk) (db : PocketDB)
    : PocketDB * Disk :=
  match cs with
  | [] => (db, disk)
  | c :: cs' =>
      match step c disk db with
      | (_, db', disk') => run cs' disk' db'
      end
  end.

End Calls.

Definition is_load (c : call) : bool :=
  match c with CallLoad _ _ => true | _ => false end.

(** The operations of the core that call [_prune_expired]. *)
Definition prunes (c : call) : bool :=
  match c with
  | CallSet _ _ _ _ _ | CallGet _ _ _ | CallDelete _ _ | CallExists _ _
  | CallSize _ | CallKeys _ _ | CallValues _ | CallItems _ | CallStats _ =>
      true
  | _ => false
  end.

(** The operations of the core: the pruning ones and [reset]. *)
Definition core (c : call) : bool :=
  match c with
  | CallReset => true
  | _ => prunes c
  end.

(** The clock reading a call hands to [_prune_expired]. *)
Definition prune_clock (c : call) : Z :=
  match c with
  | CallSet _ _ _ now _ | CallGet _ _ now | CallDelete _ now
  | CallExists _ now | CallSize now | CallKeys _ now | CallValues now
  | CallItems now | CallStats now | CallSave _ now _ | CallLoad _ now
  | CallQuit now _ => now
  | CallReset => 0
  end.

Definition valid_key (key : pyval) : bool :=
  match key with
  | PStr s => negb (String.eqb (strip s) "")
  | _ => false
  end.

(** The arguments pass validation and the clock does not run backwards
    within the call. *)
Definition well_formed_call (c : call) : bool :=
  match c with
  | CallSet key value _ now now' =>
      valid_key key && json_dumps_ok value && (now <=? now')
  | CallGet key _ _ | CallDelete key _ | CallExists key _ => valid_key key
  | _ => true
  end.

(** The key a call writes, if any. *)
Definition written_key (c : call) : option string :=
  match c with
  | CallSet (PStr k) _ _ _ _ => Some k
  | _ => None
  end.

(** ** Invariants of the two tables *)

(** Every key of the expiry table is a key of the value table. *)
Definition ttl_in_data (db : PocketDB) : bool :=
  forallb (fun k => Dict.mem k (_data db)) (Dict.keys (_ttl db)).

Fixpoint unique_keys {V} (d : dict V) : bool :=
  match d with
  | [] => true
  | (k, _) :: d' => negb (Dict.mem k d') && unique_keys d'
  end.

(** A store as the engine builds it: the expiry table is a dictionary (no
    key twice) whose keys all have a value. *)
Definition wf (db : PocketDB) : bool :=
  unique_keys (_ttl db) && ttl_in_data db.

(** No recorded expiry is strictly before [now]. *)
Definition none_expired (now : Z) (db : PocketDB) : bool :=
  forallb (fun ke => negb (now >? snd ke)) (_ttl db).

(** What a successful [_prune_expired] leaves. *)
Definition remove_keys {V} (ks : list string) (d : dict V) : dict V :=
  filter (fun kv => negb (existsb (String.eqb (fst kv)) ks)) d.

Definition add_expired (n : nat) (s : Stats) : Stats :=
  mkStats (gets s) (sets s) (deletes s) (hits s) (misses s)
    (expired s + Z.of_nat n).

Definition pruned (now : Z) (db : PocketDB) : PocketDB :=
  let ks := expired_keys now (_ttl db) in
  mkDB (name db) (default_filename db) (remove_keys ks (_data db))
    (remove_keys ks (_ttl db)) (add_expired (length ks) (_stats db))
    (_is_running db).

(** ** Glob matching, as the specification words it *)

(** [glob_match s pattern]: [*] matches any run of characters, [?] any one
    character, every other character itself.  Arguments in the order of
    [fnmatch.fnmatch(name, pattern)]. *)
Fixpoint glob_match (s pattern : string) {struct pattern} : bool :=
  match pattern with
  | EmptyString =>
      match s with EmptyString => true | _ => false end
  | String p pattern' =>
      if Ascii.eqb p "*"%char then
        (fix star (s : string) : bool :=
           glob_match s pattern'
           || match s with
              | EmptyString => false
              | String _ s' => star s'
              end) s
      else
        match s with
        | EmptyString => false
        | String c s' =>
            (Ascii.eqb p "?"%char || Ascii.eqb p c) && glob_match s' pattern'
        end
  end.

(** A TTL the specification accepts: a positive integer. *)
Definition positive_int (ttl : pyval) : bool :=
  match isinstance_int ttl with
  | Some t => 0 <? t
  | None => false
  end.

(** The key has no expiry, or one that is not strictly before [now]. *)
Definition live (now : Z) (ttl : dict Z) (k : string) : bool :=
  match Dict.get k ttl with
  | Some e => negb (now >? e)
  | None => true
  end.

(** What a call that prunes first leaves of a store [db]: no expiry before
    the clock reading, the counter raised by the number of expired keys,
    and those keys gone from both tables (unless the call writes one of
    them anew). *)
Definition pruned_first (now : Z) (c : call) (db db' : PocketDB) : Prop :=
  none_expired now db' = true
  /\ expired (_stats db')
     = expired (_stats db) + Z.of_nat (length (expired_keys now (_ttl db)))
  /\ forall k, In k (expired_keys now (_ttl db)) ->
       written_key c <> Some k ->
       Dict.mem k (_data db') = false /\ Dict.mem k (_ttl db') = false.

(** ** Concrete stores and disks *)

Definition fresh : PocketDB := __init__ "pocketdb".

(** ["a"] stored with value 0 and expiry instant 500. *)
Definition store_a_expiring : PocketDB :=
  with_ttl [("a", 500)] (with_data [("a", PInt 0)] fresh).

(** ["ab"] stored without expiry. *)
Definition store_ab : PocketDB := with_data [("ab", PInt 1)] fresh.

(** A snapshot whose expiry table names a key its value table lacks. *)
Definition ghost_disk : Disk :=
  [("snap.pdb", Pickle (mkBackup [] (Some [("ghost", 0)]) None))].

(** What every call but [load_from_disk] keeps from the object it starts
    on to the object it leaves, whether it returns or raises. *)
Definition keeps (db db' : PocketDB) : Prop :=
  (ttl_in_data db = true -> ttl_in_data db' = true)
  /\ (unique_keys (_ttl db) = true -> unique_keys (_ttl db') = true)
  /\ sets (_stats db') = sets (_stats db).

(** ** Blank strings *)

(** Every character is white space ([str.isspace], or the string is
    empty). *)
Fixpoint all_space (s : string) : bool :=
  match s with
  | EmptyString => true
  | String c s' => isspace c && all_space s'
  end.

(** ** The counters *)

(** Every [get] is a hit or a miss, and no counter is negative. *)
Definition counters_ok (s : Stats) : Prop :=
  gets s = hits s + misses s
  /\ 0 <= hits s /\ 0 <= misses s /\ 0 <= deletes s /\ 0 <= expired s.

(** No counter of [s'] is below the one of [s]. *)
Definition stats_le (s s' : Stats) : Prop :=
  gets s <= gets s' /\ sets s <= sets s' /\ deletes s <= deletes s'
  /\ hits s <= hits s' /\ misses s <= misses s' /\ expired s <= expired s'.

Definition grows (db db' : PocketDB) : Prop :=
  stats_le (_stats db) (_stats db')
  /\ (counters_ok (_stats db) -> counters_ok (_stats db')).

(** ** The benchmark's bulk insert (performance_test.py) *)

Definition NUMBER_OF_ITEMS : N := 100000.
Definition KEY_PREFIX : string := "key_".

(** [f"{i}"] for a natural number: its decimal digits. *)
Definition str_of_int (i : nat) : string :=
  NilEmpty.string_of_uint (Nat.to_uint i).

(** [keys_to_test[i]] and [values_to_test[i]]: the lists have
    [NUMBER_OF_ITEMS] elements, and [None] stands for the [IndexError] of
    an index past them. *)
Definition keys_to_test (i : nat) : option string :=
  if (N.of_nat i <? NUMBER_OF_ITEMS)%N then Some (KEY_PREFIX ++ str_of_int i)
  else None.

Definition values_to_test (i : nat) : option string :=
  if (N.of_nat i <? NUMBER_OF_ITEMS)%N then Some ("value_" ++ str_of_int i)
  else None.

(** What escapes the benchmark's helper: its own [IndexError], or an
    exception of the engine. *)
Inductive harness_exn : Type :=
| IndexError
| EngineError (e : exn).

(** The loop of [populate_db], from index [i], with [n] iterations to go;
    [clock i] gives the two clock readings of the [i]-th [set]. *)
Fixpoint populate_loop (clock : nat -> Z * Z) (i n : nat) (db : PocketDB)
    : option harness_exn * PocketDB :=
  match n with
  | O => (None, db)
  | S n' =>
      match keys_to_test i, values_to_test i with
      | Some k, Some v =>
          match set (PStr k) (PStr v) PNone (fst (clock i)) (snd (clock i)) db
          with
          | (Return _, db') => populate_loop clock (S i) n' db'
          | (Raise e, db') => (Some (EngineError e), db')
          end
      | _, _ => (Some IndexError, db)
      end
  end.

(** [populate_db(db, items)]. *)
Definition populate_db (clock : nat -> Z * Z) (db : PocketDB) (items : nat)
    : option harness_exn * PocketDB :=
  populate_loop clock 0 items db.

(** The entries [key_i => "value_i"] for [i < n], in order. *)
Definition test_entries (n : nat) : dict pyval :=
  map (fun i => (KEY_PREFIX ++ str_of_int i, PStr ("value_" ++ str_of_int i)))
    (seq 0 n).

(** ** The auto-save thread *)

(** Where the worker of [_begin_auto_save] stands: about to test
    [self._is_running], inside [time.sleep], or past its loop. *)
Inductive worker_pc : Type :=
| AtTest
| Asleep
| Finished.

(** The object together with [self._auto_save_thread]. *)
Record Process : Type := mkProcess {
  obj : PocketDB;
  _auto_save_thread : option worker_pc
}.

(** [_begin_auto_save]: a thread is started only when there is none. *)
Definition _begin_auto_save (p : Process) : Process :=
  match _auto_save_thread p with
  | None => mkProcess (obj p) (Some AtTest)
  | Some _ => p
  end.

(** Construction, the thread included. *)
Definition boot (name : string) : Process :=
  _begin_auto_save (mkProcess (__init__ name) None).

(** One move of the worker: the test of the loop, or waking up and
    saving to the default file, any exception being printed and dropped.
    The save holds the lock for its whole body, so it is one step among
    the caller's operations. *)
Definition _worker (now : Z) (io : io_outcome) (disk : Disk) (p : Process)
    : Process * Disk :=
  match _auto_save_thread p with
  | Some AtTest =>
      (mkProcess (obj p)
         (Some (if _is_running (obj p) then Asleep else Finished)), disk)
  | Some Asleep =>
      match save_to_disk None now io disk (obj p) with
      | (_, db', disk') => (mkProcess db' (Some AtTest), disk')
      end
  | _ => (p, disk)
  end.

(** What happens next in the process: the caller's thread runs one
    operation, or the worker moves. *)
Inductive event : Type :=
| Caller (c : call)
| Worker (now : Z) (io : io_outcome).

Definition occur (fnmatch : string -> string -> bool) (e : event)
    (disk : Disk) (p : Process) : Process * Disk :=
  match e with
  | Caller c =>
      match step fnmatch c disk (obj p) with
      | (_, db', disk') => (mkProcess db' (_auto_save_thread p), disk')
      end
  | Worker now io => _worker now io disk p
  end.

Fixpoint schedule (fnmatch : string -> string -> bool) (es : list event)
    (disk : Disk) (p : Process) : Process * Disk :=
  match es with
  | [] => (p, disk)
  | e :: es' =>
      match occur fnmatch e disk p with
      | (p', disk') => schedule fnmatch es' disk' p'
      end
  end.

Definition is_load_event (e : event) : bool :=
  match e with
  | Caller c => is_load c
  | Worker _ _ => false
  end.

Definition is_worker_event (e : event) : bool :=
  match e with
  | Worker _ _ => true
  | Caller _ => false
  end.

(** * Facts about dictionaries *)

Module DictFacts.
Section Facts.
Context {V : Type}.
Implicit Types (d : dict V) (k : string).

Lemma mem_get k d : Dict.mem k d = true <-> exists v, Dict.get k d = Some v.
Proof.
  unfold Dict.mem. destruct (Dict.get k d) as [v|].
  - split; [eauto | reflexivity].
  - split; [discriminate | intros [v Hv]; discriminate].
Qed.

Lemma mem_in_keys k d : Dict.mem k d = true <-> In k (Dict.keys d).
Proof.
  unfold Dict.mem. induction d as [|[k' v] d IH]; simpl.
  - split; [discriminate | tauto].
  - destruct (String.eqb_spec k' k) as [->|Hne].
    + split; auto.
    + rewrite IH. split; [auto | intros [H|H]; [congruence | exact H]].
Qed.

Lemma mem_false_not_in k d : Dict.mem k d = false <-> ~ In k (Dict.keys d).
Proof.
  rewrite <- mem_in_keys. destruct (Dict.mem k d); split; congruence.
Qed.

(** Filtering on the key commutes with lookup. *)
Lemma get_filter_key (P : string -> bool) k d :
  Dict.get k (filter (fun kv => P (fst kv)) d)
  = if P k then Dict.get k d else None.
Proof.
  induction d as [|[k' v] d IH]; simpl.
  - destruct (P k); reflexivity.
  - destruct (P k') eqn:HP; simpl.
    + destruct (String.eqb_spec k' k) as [->|Hne].
      * rewrite HP. reflexivity.
      * exact IH.
    + destruct (String.eqb_spec k' k) as [->|Hne].
      * rewrite IH, HP. reflexivity.
      * exact IH.
Qed.

Lemma mem_filter_key (P : string -> bool) k d :
  Dict.mem k (filter (fun kv => P (fst kv)) d) = P k && Dict.mem k d.
Proof.
  unfold Dict.mem. rewrite get_filter_key. destruct (P k); reflexivity.
Qed.

Lemma get_del k k' d :
  Dict.get k' (Dict.del k d)
  = if String.eqb k' k then None else Dict.get k' d.
Proof.
  unfold Dict.del.
  rewrite (get_filter_key (fun x => negb (String.eqb x k))).
  destruct (String.eqb k' k); reflexivity.
Qed.

Lemma mem_del k k' d :
  Dict.mem k' (Dict.del k d) = negb (String.eqb k' k) && Dict.mem k' d.
Proof.
  unfold Dict.mem. rewrite get_del. destruct (String.eqb k' k); reflexivity.
Qed.

Lemma get_remove_keys ks k d :
  Dict.get k (remove_keys ks d)
  = if existsb (String.eqb k) ks then None else Dict.get k d.
Proof.
  unfold remove_keys.
  rewrite (get_filter_key (fun x => negb (existsb (String.eqb x) ks))).
  destruct (existsb (String.eqb k) ks); reflexivity.
Qed.

Lemma mem_remove_keys ks k d :
  Dict.mem k (remove_keys ks d)
  = negb (existsb (String.eqb k) ks) && Dict.mem k d.
Proof.
  unfold Dict.mem. rewrite get_remove_keys.
  destruct (existsb (String.eqb k) ks); reflexivity.
Qed.

Lemma get_set k k' (v : V) d :
  Dict.get k' (Dict.set k v d)
  = if String.eqb k' k then Some v else Dict.get k' d.
Proof.
  induction d as [|[k0 v0] d IH]; simpl.
  - rewrite String.eqb_sym. reflexivity.
  - destruct (String.eqb_spec k0 k) as [->|Hne]; simpl.
    + rewrite String.eqb_sym. destruct (String.eqb k' k); reflexivity.
    + destruct (String.eqb_spec k0 k') as [->|Hne'].
      * destruct (String.eqb_spec k' k); [congruence | reflexivity].
      * exact IH.
Qed.

Lemma mem_set k k' (v : V) d :
  Dict.mem k' (Dict.set k v d) = String.eqb k' k || Dict.mem k' d.
Proof.
  unfold Dict.mem. rewrite get_set. destruct (String.eqb k' k); reflexivity.
Qed.

Lemma existsb_eqb_in k ks : existsb (String.eqb k) ks = true <-> In k ks.
Proof.
  rewrite existsb_exists. split.
  - intros [x [Hx He]]. apply String.eqb_eq in He. subst. exact Hx.
  - intros H. exists k. split; [exact H | apply String.eqb_refl].
Qed.

(** Deleting one key, then the others, removes them all. *)
Lemma remove_keys_del k ks d :
  remove_keys ks (Dict.del k d) = remove_keys (k :: ks) d.
Proof.
  unfold remove_keys, Dict.del. induction d as [|[k' v] d IH]; simpl.
  - reflexivity.
  - destruct (String.eqb k' k); simpl.
    + exact IH.
    + destruct (existsb (String.eqb k') ks); simpl; [exact IH | now rewrite IH].
Qed.

Lemma remove_keys_nil d : remove_keys [] d = d.
Proof.
  unfold remove_keys. induction d as [|kv d IH]; simpl in *;
    [reflexivity | now f_equal].
Qed.

Lemma unique_keys_NoDup d : unique_keys d = true <-> NoDup (Dict.keys d).
Proof.
  induction d as [|[k v] d IH]; simpl.
  - split; [constructor | reflexivity].
  - rewrite andb_true_iff, negb_true_iff, IH, mem_false_not_in. split.
    + intros [H1 H2]. constructor; assumption.
    + intros H. inversion H; subst. split; assumption.
Qed.

Lemma unique_keys_filter (f : string * V -> bool) d :
  unique_keys d = true -> unique_keys (filter f d) = true.
Proof.
  rewrite !unique_keys_NoDup. unfold Dict.keys.
  induction d as [|[k v] d IH]; simpl; intros H.
  - constructor.
  - inversion H; subst. destruct (f (k, v)); simpl; auto.
    constructor; auto. intros Hin. apply H2.
    apply in_map_iff in Hin. destruct Hin as [x [Hx1 Hx2]].
    apply filter_In in Hx2. apply in_map_iff. exists x. tauto.
Qed.

Lemma unique_keys_set k (v : V) d :
  unique_keys d = true -> unique_keys (Dict.set k v d) = true.
Proof.
  induction d as [|[k0 v0] d IH]; simpl; intros H.
  - reflexivity.
  - apply andb_true_iff in H. destruct H as [H1 H2].
    destruct (String.eqb_spec k0 k) as [->|Hne]; simpl.
    + now rewrite H1, H2.
    + rewrite mem_set, IH by assumption.
      apply negb_true_iff in H1. rewrite H1.
      destruct (String.eqb_spec k0 k); [congruence | reflexivity].
Qed.

Lemma keys_filter_key (P : string -> bool) d :
  Dict.keys (filter (fun kv => P (fst kv)) d) = filter P (Dict.keys d).
Proof.
  unfold Dict.keys. induction d as [|[k v] d IH]; simpl.
  - reflexivity.
  - destruct (P k); simpl; now rewrite IH.
Qed.

End Facts.
End DictFacts.

(** * Facts about pruning *)

Import DictFacts.

Lemma ttl_in_data_spec db :
  ttl_in_data db = true
  <-> forall k, Dict.mem k (_ttl db) = true -> Dict.mem k (_data db) = true.
Proof.
  unfold ttl_in_data. rewrite forallb_forall. split.
  - intros H k Hk. apply H. now apply mem_in_keys.
  - intros H k Hk. apply H. now apply mem_in_keys.
Qed.

Lemma add_expired_0 s : add_expired 0 s = s.
Proof. destruct s. unfold add_expired. simpl. now rewrite Z.add_0_r. Qed.

Lemma add_expired_S n s : add_expired n (incr_expired s) = add_expired (S n) s.
Proof.
  destruct s. unfold add_expired, incr_expired. simpl expired. f_equal. lia.
Qed.

(** The deleting loop succeeds on distinct keys present in both tables, and
    removes exactly them. *)
Lemma prune_loop_ok ks : forall db,
  NoDup ks ->
  (forall k, In k ks ->
     Dict.mem k (_data db) = true /\ Dict.mem k (_ttl db) = true) ->
  prune_loop ks db
  = (Return tt,
     mkDB (name db) (default_filename db) (remove_keys ks (_data db))
       (remove_keys ks (_ttl db)) (add_expired (length ks) (_stats db))
       (_is_running db)).
Proof.
  induction ks as [|key ks IH]; intros [n f d t s r] Hnd H.
  - simpl. unfold ret. now rewrite !remove_keys_nil, add_expired_0.
  - destruct (H key (or_introl eq_refl)) as [Hd Ht]. simpl in Hd, Ht.
    inversion Hnd as [|? ? Hnotin Hnd']; subst.
    cbn [prune_loop]. unfold bind at 1. unfold del_data. cbn [_data].
    rewrite Hd. unfold bind at 1. unfold del_ttl. cbn [_ttl with_data].
    rewrite Ht. unfold bind at 1. unfold bump, modify.
    rewrite IH; [|assumption|].
    + cbn [name default_filename _data _ttl _stats _is_running with_stats
             with_ttl with_data length].
      now rewrite !remove_keys_del, add_expired_S.
    + intros k Hk.
      cbn [name default_filename _data _ttl _stats _is_running with_stats
             with_ttl with_data].
      rewrite !mem_del.
      destruct (H k (or_intror Hk)) as [Hd' Ht']. simpl in Hd', Ht'.
      rewrite Hd', Ht'.
      destruct (String.eqb_spec k key); [subst; contradiction | auto].
Qed.

Lemma expired_keys_in now (t : dict Z) k :
  In k (expired_keys now t) -> Dict.mem k t = true.
Proof.
  unfold expired_keys. intros H. apply mem_in_keys.
  apply in_map_iff in H. destruct H as [x [Hx1 Hx2]].
  apply filter_In in Hx2. apply in_map_iff. exists x. tauto.
Qed.

Lemma expired_keys_NoDup now (t : dict Z) :
  unique_keys t = true -> NoDup (expired_keys now t).
Proof.
  intros H. unfold expired_keys.
  apply (unique_keys_filter (fun ke => now >? snd ke)) in H.
  now apply unique_keys_NoDup in H.
Qed.

(** On a well-formed store the prune returns, and leaves [pruned]. *)
Lemma _prune_expired_wf now db :
  wf db = true -> _prune_expired now db = (Return tt, pruned now db).
Proof.
  unfold wf. rewrite andb_true_iff, ttl_in_data_spec. intros [Hu Hin].
  unfold _prune_expired, bind, self.
  rewrite prune_loop_ok.
  - reflexivity.
  - now apply expired_keys_NoDup.
  - intros k Hk. apply expired_keys_in in Hk. auto.
Qed.

Lemma pruned_none_expired now db : none_expired now (pruned now db) = true.
Proof.
  unfold none_expired, pruned. cbn [_ttl]. apply forallb_forall.
  intros [k e] Hin. unfold remove_keys in Hin. apply filter_In in Hin.
  destruct Hin as [Hin Hk]. simpl in *.
  destruct (now >? e) eqn:He; [|reflexivity].
  apply negb_true_iff in Hk.
  assert (Hx : existsb (String.eqb k) (expired_keys now (_ttl db)) = true).
  { apply existsb_eqb_in. unfold expired_keys. apply in_map_iff.
    exists (k, e). split; [reflexivity|]. apply filter_In. auto. }
  congruence.
Qed.

Lemma pruned_wf now db : wf db = true -> wf (pruned now db) = true.
Proof.
  unfold wf. rewrite !andb_true_iff, !ttl_in_data_spec. intros [Hu Hin].
  split.
  - unfold pruned. cbn [_ttl]. now apply unique_keys_filter.
  - intros k. unfold pruned. cbn [_ttl _data]. rewrite !mem_remove_keys.
    rewrite !andb_true_iff. intros [H1 H2]. auto.
Qed.

(** With distinct keys, the pruned expiry table is the table filtered on
    the expiry itself. *)
Lemma remove_expired_filter now (t : dict Z) :
  unique_keys t = true ->
  remove_keys (expired_keys now t) t = filter (fun ke => negb (now >? snd ke)) t.
Proof.
  intros Hu. unfold remove_keys. apply filter_ext_in. intros [k e] Hin.
  simpl. f_equal.
  destruct (now >? e) eqn:He.
  - apply existsb_eqb_in. unfold expired_keys. apply in_map_iff.
    exists (k, e). split; [reflexivity|]. apply filter_In. auto.
  - apply not_true_is_false. intros Hx. apply existsb_eqb_in in Hx.
    unfold expired_keys in Hx. apply in_map_iff in Hx.
    destruct Hx as [[k' e'] [Hk Hx]]. simpl in Hk. subst k'.
    apply filter_In in Hx. destruct Hx as [Hx He']. simpl in He'.
    assert (e' = e); [|subst; congruence].
    clear He He'. induction t as [|[k0 e0] t IH]; [contradiction|].
    simpl in Hu. apply andb_true_iff in Hu. destruct Hu as [Hn Hu].
    apply negb_true_iff, mem_false_not_in in Hn.
    destruct Hin as [Hin|Hin], Hx as [Hx|Hx].
    + congruence.
    + inversion Hin; subst. exfalso. apply Hn.
      apply in_map_iff. exists (k, e'). auto.
    + inversion Hx; subst. exfalso. apply Hn.
      apply in_map_iff. exists (k, e). auto.
    + auto.
Qed.

(** * What the calls keep *)

Lemma keeps_refl db : keeps db db.
Proof. unfold keeps. auto. Qed.

Lemma keeps_trans db1 db2 db3 : keeps db1 db2 -> keeps db2 db3 -> keeps db1 db3.
Proof.
  unfold keeps. intros (A1 & B1 & C1) (A2 & B2 & C2).
  repeat split; auto. congruence.
Qed.

Lemma keeps_stats s db :
  sets s = sets (_stats db) -> keeps db (with_stats s db).
Proof. unfold keeps, ttl_in_data. cbn. auto. Qed.

Lemma keeps_running b db : keeps db (with_running b db).
Proof. unfold keeps, ttl_in_data. cbn. auto. Qed.

Lemma keeps_reset db : keeps db (with_ttl [] (with_data [] db)).
Proof. unfold keeps, ttl_in_data. cbn. auto. Qed.

Lemma keeps_set_data k v db :
  keeps db (with_data (Dict.set k v (_data db)) db).
Proof.
  unfold keeps. rewrite !ttl_in_data_spec. cbn. repeat split; auto.
  intros H k' Hk'. rewrite mem_set, (H k' Hk'). apply orb_true_r.
Qed.

Lemma keeps_set_both k v e db :
  keeps db (with_ttl (Dict.set k e (_ttl db))
              (with_data (Dict.set k v (_data db)) db)).
Proof.
  unfold keeps. rewrite !ttl_in_data_spec. cbn. repeat split.
  - intros H k'. rewrite !mem_set.
    destruct (String.eqb k' k); [reflexivity | apply H].
  - apply unique_keys_set.
Qed.

Lemma keeps_del_ttl k db : keeps db (with_ttl (Dict.del k (_ttl db)) db).
Proof.
  unfold keeps. rewrite !ttl_in_data_spec. cbn. repeat split.
  - intros H k'. rewrite mem_del, andb_true_iff. intros [_ Hk']. auto.
  - apply unique_keys_filter.
Qed.

Lemma keeps_del_both k db :
  keeps db (with_ttl (Dict.del k (_ttl db))
              (with_data (Dict.del k (_data db)) db)).
Proof.
  unfold keeps. rewrite !ttl_in_data_spec. cbn. repeat split.
  - intros H k'. rewrite !mem_del, !andb_true_iff. intros [Hne Hk']. auto.
  - apply unique_keys_filter.
Qed.

Lemma keeps_del_data k db :
  Dict.mem k (_ttl db) = false ->
  keeps db (with_data (Dict.del k (_data db)) db).
Proof.
  intros Hk. unfold keeps. rewrite !ttl_in_data_spec. cbn. repeat split; auto.
  intros H k' Hk'. rewrite mem_del, (H k' Hk').
  destruct (String.eqb_spec k' k); [congruence | reflexivity].
Qed.

Lemma keeps_set_del k v db :
  keeps db (with_ttl (Dict.del k (_ttl db))
              (with_data (Dict.set k v (_data db)) db)).
Proof.
  eapply keeps_trans; [apply (keeps_set_data k v)|].
  apply (keeps_del_ttl k (with_data (Dict.set k v (_data db)) db)).
Qed.

(** The deleting loop keeps the invariants wherever it stops. *)
Lemma prune_loop_keeps ks : forall db, keeps db (snd (prune_loop ks db)).
Proof.
  induction ks as [|key ks IH]; intros db.
  - apply keeps_refl.
  - cbn [prune_loop]. unfold bind at 1. unfold del_data.
    destruct (Dict.mem key (_data db)) eqn:Hd; [|apply keeps_refl].
    unfold bind at 1. unfold del_ttl. cbn [_ttl with_data].
    destruct (Dict.mem key (_ttl db)) eqn:Ht; [|now apply keeps_del_data].
    unfold bind at 1. unfold bump, modify.
    eapply keeps_trans; [|apply IH].
    eapply keeps_trans; [apply (keeps_del_both key)|].
    apply keeps_stats. reflexivity.
Qed.

Lemma _prune_expired_keeps now db : keeps db (snd (_prune_expired now db)).
Proof. unfold _prune_expired, bind, self. apply prune_loop_keeps. Qed.

(** Case analysis along a method body, the prune kept as one step. *)
Ltac unfold_m :=
  unfold bind, ret, raise, self, modify, bump, del_data, del_ttl,
    _validate_key, _validate_value in *.

Ltac split_m :=
  repeat (unfold_m; cbn [fst snd] in *;
          match goal with
          | |- context [match ?x with _ => _ end] =>
              lazymatch x with
              | context [match _ with _ => _ end] => fail
              | _ => destruct x eqn:?
              end
          end).

Ltac after_prune :=
  match goal with
  | H : _prune_expired ?n ?d = (_, ?d1) |- keeps ?d _ =>
      apply keeps_trans with d1;
      [generalize (_prune_expired_keeps n d); rewrite H; exact (fun x => x)|]
  | _ => idtac
  end.

Create HintDb keeps.
#[local] Hint Resolve keeps_refl keeps_set_data keeps_set_both keeps_del_ttl
  keeps_del_both keeps_del_data keeps_reset keeps_running keeps_set_del
  : keeps.

Ltac finish_keeps :=
  cbn [snd fst _ttl _data with_data with_ttl with_stats] in *;
  repeat first
    [ solve [auto with keeps]
    | eapply keeps_trans; [|apply keeps_stats; reflexivity] ].

Lemma set_keeps key value ttl now now' db :
  keeps db (snd (set key value ttl now now' db)).
Proof. unfold set. split_m; after_prune; finish_keeps. Qed.

Lemma get_keeps key d now db : keeps db (snd (get key d now db)).
Proof. unfold get. split_m; after_prune; finish_keeps. Qed.

Lemma delete_keeps key now db : keeps db (snd (delete key now db)).
Proof. unfold delete. split_m; after_prune; finish_keeps. Qed.

Lemma exists_keeps key now db : keeps db (snd (exists_ key now db)).
Proof. unfold exists_. split_m; after_prune; finish_keeps. Qed.

Lemma keys_keeps f pattern now db : keeps db (snd (keys f pattern now db)).
Proof. unfold keys. split_m; after_prune; finish_keeps. Qed.

Lemma stats_keeps now db : keeps db (snd (stats now db)).
Proof. unfold stats. split_m; after_prune; finish_keeps. Qed.

Lemma save_to_disk_keeps filename now io disk db :
  keeps db (snd (fst (save_to_disk filename now io disk db))).
Proof. unfold save_to_disk. split_m; after_prune; finish_keeps. Qed.

(** Every call but [load_from_disk] keeps the invariants and the [sets]
    counter. *)
Lemma step_keeps f c disk db :
  is_load c = false -> keeps db (snd (fst (step f c disk db))).
Proof.
  intros Hc. destruct c; try discriminate; cbn [step]; unfold in_memory, on_disk.
  - generalize (set_keeps key value ttl now now' db).
    destruct (set key value ttl now now' db) as [[]]; auto.
  - generalize (get_keeps key default_value now db).
    destruct (get key default_value now db) as [[]]; auto.
  - generalize (delete_keeps key now db).
    destruct (delete key now db) as [[]]; auto.
  - generalize (exists_keeps key now db).
    destruct (exists_ key now db) as [[]]; auto.
  - unfold size. split_m; after_prune; finish_keeps.
  - generalize (keys_keeps f pattern now db).
    destruct (keys f pattern now db) as [[]]; auto.
  - unfold values. split_m; after_prune; finish_keeps.
  - unfold items. split_m; after_prune; finish_keeps.
  - unfold reset. split_m; finish_keeps.
  - generalize (stats_keeps now db).
    destruct (stats now db) as [[]]; auto.
  - generalize (save_to_disk_keeps filename now io disk db).
    destruct (save_to_disk filename now io disk db) as [[[]]]; auto.
  - unfold quit.
    generalize (save_to_disk_keeps None now io disk (with_running false db)).
    destruct (save_to_disk None now io disk (with_running false db))
      as [[[]]]; cbn [fst snd]; intros H;
      (eapply keeps_trans; [apply keeps_running | exact H]).
Qed.

Lemma run_keeps f cs : forall disk db,
  forallb (fun c => negb (is_load c)) cs = true ->
  keeps db (fst (run f cs disk db)).
Proof.
  induction cs as [|c cs IH]; intros disk db H; cbn [run].
  - apply keeps_refl.
  - cbn [forallb] in H. apply andb_true_iff in H. destruct H as [Hc H].
    apply negb_true_iff in Hc.
    generalize (step_keeps f c disk db Hc).
    destruct (step f c disk db) as [[o db'] disk']. cbn [fst snd]. intros Hk.
    eapply keeps_trans; [exact Hk | now apply IH].
Qed.

(** * The methods on a well-formed store *)

Lemma del_absent {V} k (d : dict V) : Dict.mem k d = false -> Dict.del k d = d.
Proof.
  intros H. apply mem_false_not_in in H. unfold Dict.del.
  induction d as [|[k' v] d IH]; simpl in *; [reflexivity|].
  destruct (String.eqb_spec k' k) as [->|Hne]; simpl.
  - exfalso. auto.
  - f_equal. apply IH. auto.
Qed.

Lemma with_ttl_same db : with_ttl (_ttl db) db = db.
Proof. now destruct db. Qed.

(** [set] on a well-formed store, branch by branch. *)
Lemma set_wf k value ttl now now' db :
  strip k <> "" -> json_dumps_ok value = true -> wf db = true ->
  set (PStr k) value ttl now now' db
  = let p := pruned now db in
    let p1 := with_data (Dict.set k value (_data p)) p in
    match isinstance_int ttl with
    | Some t =>
        if t <=? 0 then (Raise PocketDBInvalidValueError, p1)
        else (Return true, with_ttl (Dict.set k (now' + t) (_ttl p)) p1)
    | None => (Return true, with_ttl (Dict.del k (_ttl p)) p1)
    end.
Proof.
  intros Hk Hv Hwf. apply String.eqb_neq in Hk.
  unfold set, _validate_key, _validate_value. rewrite Hk, Hv.
  unfold bind at 1. unfold ret at 1. unfold bind at 1. unfold ret at 1.
  unfold bind at 1. rewrite (_prune_expired_wf now db Hwf).
  cbv zeta. destruct (isinstance_int ttl) as [t|].
  - destruct (t <=? 0); reflexivity.
  - unfold bind, modify, self, ret, del_ttl. cbv beta iota.
    change (_ttl (with_data (Dict.set k value (_data (pruned now db)))
                    (pruned now db)))
      with (_ttl (pruned now db)).
    destruct (Dict.mem k (_ttl (pruned now db))) eqn:Hm; cbv beta iota.
    + change (_ttl (with_data (Dict.set k value (_data (pruned now db)))
                      (pruned now db)))
        with (_ttl (pruned now db)).
      now rewrite Hm.
    + rewrite (del_absent _ _ Hm). now destruct (pruned now db).
Qed.

(** [get] once the prune has returned. *)
Lemma get_after_prune k d now db db1 :
  strip k <> "" ->
  _prune_expired now db = (Return tt, db1) ->
  get (PStr k) d now db
  = match Dict.get k (_data db1) with
    | Some v =>
        (Return v, with_stats (incr_hits (incr_gets (_stats db1))) db1)
    | None =>
        (match d with
         | PNone => Raise PocketDBKeyNotFoundError
         | _ => Return d
         end,
         with_stats (incr_misses (incr_gets (_stats db1))) db1)
    end.
Proof.
  intros Hk Hp. apply String.eqb_neq in Hk.
  unfold get, _validate_key. rewrite Hk.
  unfold bind at 1. unfold ret at 1. unfold bind at 1. rewrite Hp.
  unfold bind at 1. unfold self at 1.
  destruct (Dict.get k (_data db1)) as [v|]; [reflexivity|].
  destruct d; reflexivity.
Qed.

(** * Pruning first *)

Lemma forallb_dict_set {V} (P : string * V -> bool) k v (d : dict V) :
  forallb P d = true -> P (k, v) = true -> forallb P (Dict.set k v d) = true.
Proof.
  intros Hd Hkv. induction d as [|[k0 v0] d IH]; simpl in *.
  - now rewrite Hkv.
  - apply andb_true_iff in Hd. destruct Hd as [H0 Hd].
    destruct (String.eqb k0 k); simpl.
    + now rewrite Hkv, Hd.
    + now rewrite H0, IH.
Qed.

Lemma forallb_filter {A} (P f : A -> bool) (l : list A) :
  forallb P l = true -> forallb P (filter f l) = true.
Proof.
  rewrite !forallb_forall. intros H x Hx. apply filter_In in Hx. apply H, Hx.
Qed.

Lemma pruned_pruned_first now c db : pruned_first now c db (pruned now db).
Proof.
  unfold pruned_first. split; [apply pruned_none_expired|]. split.
  - reflexivity.
  - intros k Hk _. unfold pruned. cbn [_data _ttl].
    rewrite !mem_remove_keys.
    apply existsb_eqb_in in Hk. now rewrite Hk.
Qed.

(** Changing counters other than [expired] keeps the property. *)
Lemma pruned_first_stats now c db p s :
  expired s = expired (_stats p) ->
  pruned_first now c db p -> pruned_first now c db (with_stats s p).
Proof.
  unfold pruned_first, none_expired. cbn [_ttl _data _stats with_stats].
  intros -> H. exact H.
Qed.

Lemma pruned_first_del now c db p k :
  pruned_first now c db p ->
  pruned_first now c db
    (with_ttl (Dict.del k (_ttl p)) (with_data (Dict.del k (_data p)) p)).
Proof.
  unfold pruned_first, none_expired. cbn [_ttl _data _stats with_ttl with_data].
  intros (H1 & H2 & H3). repeat split; auto.
  - now apply forallb_filter.
  - rewrite mem_del. destruct (H3 k0 H H0) as [-> _]. apply andb_false_r.
  - rewrite mem_del. destruct (H3 k0 H H0) as [_ ->]. apply andb_false_r.
Qed.

Lemma pruned_first_del_data now c db p k :
  pruned_first now c db p ->
  pruned_first now c db (with_data (Dict.del k (_data p)) p).
Proof.
  unfold pruned_first, none_expired. cbn [_ttl _data _stats with_ttl with_data].
  intros (H1 & H2 & H3). repeat split; auto.
  - rewrite mem_del. destruct (H3 k0 H H0) as [-> _]. apply andb_false_r.
  - now destruct (H3 k0 H H0).
Qed.

(** [set] writes its own key only. *)
Lemma pruned_first_set now db p key value ttl n n' k v :
  pruned_first now (CallSet (PStr k) value ttl n n') db p ->
  key = PStr k ->
  pruned_first now (CallSet key value ttl n n') db
    (with_data (Dict.set k v (_data p)) p).
Proof.
  intros H ->. revert H.
  unfold pruned_first, none_expired. cbn [_ttl _data _stats with_ttl with_data].
  intros (H1 & H2 & H3). repeat split; auto.
  - rewrite mem_set. destruct (H3 k0 H H0) as [-> _].
    cbn [written_key] in H0.
    destruct (String.eqb_spec k0 k); [congruence | reflexivity].
  - now destruct (H3 k0 H H0).
Qed.

Lemma pruned_first_set_ttl now db p value ttl n n' k e :
  now <= e ->
  pruned_first now (CallSet (PStr k) value ttl n n') db p ->
  pruned_first now (CallSet (PStr k) value ttl n n') db
    (with_ttl (Dict.set k e (_ttl p)) p).
Proof.
  intros He.
  unfold pruned_first, none_expired. cbn [_ttl _data _stats with_ttl with_data].
  intros (H1 & H2 & H3). repeat split; auto.
  - apply forallb_dict_set; [exact H1|]. cbn [snd].
    apply negb_true_iff. rewrite Z.gtb_ltb. apply Z.ltb_ge. exact He.
  - now destruct (H3 k0 H H0).
  - rewrite mem_set. destruct (H3 k0 H H0) as [_ ->].
    cbn [written_key] in H0.
    destruct (String.eqb_spec k0 k); [congruence | reflexivity].
Qed.

Lemma pruned_first_del_ttl now c db p k :
  pruned_first now c db p ->
  pruned_first now c db (with_ttl (Dict.del k (_ttl p)) p).
Proof.
  unfold pruned_first, none_expired. cbn [_ttl _data _stats with_ttl with_data].
  intros (H1 & H2 & H3). repeat split; auto.
  - now apply forallb_filter.
  - now destruct (H3 k0 H H0).
  - rewrite mem_del. destruct (H3 k0 H H0) as [_ ->]. apply andb_false_r.
Qed.

Lemma in_memory_state {A} (g : A -> result) (m : M A) disk db :
  snd (fst (in_memory g m disk db)) = snd (m db).
Proof. unfold in_memory. now destruct (m db) as [[a|e] db']. Qed.

Lemma valid_key_inv key :
  valid_key key = true -> exists k, key = PStr k /\ strip k <> "".
Proof.
  destruct key; try discriminate. cbn. intros H. exists s. split; auto.
  apply String.eqb_neq. now apply negb_true_iff.
Qed.

Ltac use_prune Hwf :=
  match goal with
  | H : _prune_expired _ _ = _ |- _ =>
      rewrite (_prune_expired_wf _ _ Hwf) in H; inversion H; subst; clear H
  end.

Ltac stats_step := apply pruned_first_stats; [reflexivity|].

Ltac finish_pruned :=
  cbn [snd fst _ttl _data _stats with_data with_ttl with_stats] in *;
  try discriminate;
  repeat lazymatch goal with
         | |- pruned_first _ _ _ (pruned _ _) => apply pruned_pruned_first
         | |- pruned_first _ _ _ (with_stats _ _) => stats_step
         | |- pruned_first _ _ _ (with_ttl _ _) => apply pruned_first_del
         | |- pruned_first _ _ _ (with_data _ _) => apply pruned_first_del_data
         end.

(** C7 (amended): on a store whose tables are in step, every core
    operation other than [reset] (set, get, delete, exists, size, keys,
    values, items, stats), called with arguments that pass validation,
    first prunes: afterwards no recorded expiry is strictly before the
    clock reading, the expired keys are gone from both tables, and the
    expired counter has grown by exactly their number.  [reset] does not
    prune: it empties both tables and leaves every counter as it was. *)
Theorem core_calls_prune_first f c disk db :
  core c = true -> well_formed_call c = true -> wf db = true ->
  if prunes c
  then pruned_first (prune_clock c) c db (snd (fst (step f c disk db)))
  else snd (fst (step f c disk db)) = with_ttl [] (with_data [] db).
Proof.
  intros Hcore Hc Hwf.
  destruct c; try discriminate; cbn [prunes prune_clock step];
    rewrite in_memory_state; cbn [well_formed_call] in Hc.
  - (* set *)
    apply andb_true_iff in Hc. destruct Hc as [Hc Hclock].
    apply andb_true_iff in Hc. destruct Hc as [Hk Hv].
    apply Z.leb_le in Hclock.
    destruct (valid_key_inv _ Hk) as [k [-> Hs]].
    rewrite (set_wf k value ttl now now' db Hs Hv Hwf). cbv zeta.
    pose proof (pruned_first_set now db (pruned now db) (PStr k) value ttl
                  now now' k value (pruned_pruned_first now _ db) eq_refl)
      as Hset.
    destruct (isinstance_int ttl) as [t|].
    + destruct (t <=? 0) eqn:Ht; cbn [snd].
      * exact Hset.
      * apply Z.leb_gt in Ht.
        apply (pruned_first_set_ttl now db
                 (with_data (Dict.set k value (_data (pruned now db)))
                    (pruned now db)) value ttl now now' k (now' + t));
          [lia | exact Hset].
    + cbn [snd].
      apply (pruned_first_del_ttl now _ db
               (with_data (Dict.set k value (_data (pruned now db)))
                  (pruned now db)) k Hset).
  - (* get *)
    destruct (valid_key_inv _ Hc) as [k [-> Hs]].
    rewrite (get_after_prune k default_value now db _ Hs
               (_prune_expired_wf now db Hwf)).
    destruct (Dict.get k (_data (pruned now db))); finish_pruned.
  - (* delete *)
    destruct (valid_key_inv _ Hc) as [k [-> Hs]]. apply String.eqb_neq in Hs.
    unfold delete. split_m; try congruence; use_prune Hwf; finish_pruned.
  - (* exists *)
    destruct (valid_key_inv _ Hc) as [k [-> Hs]]. apply String.eqb_neq in Hs.
    unfold exists_. split_m; try congruence; use_prune Hwf; finish_pruned.
  - unfold size. split_m; use_prune Hwf; finish_pruned.
  - unfold keys. split_m; use_prune Hwf; finish_pruned.
  - unfold values. split_m; use_prune Hwf; finish_pruned.
  - unfold items. split_m; use_prune Hwf; finish_pruned.
  - reflexivity.
  - unfold stats. split_m; use_prune Hwf; finish_pruned.
Qed.

Lemma core_calls_prune_first_witness :
  pruned_first 600 (CallGet (PStr "a") PNone 600) store_a_expiring
    (snd (fst (step glob_match (CallGet (PStr "a") PNone 600) []
                 store_a_expiring))).
Proof.
  exact (core_calls_prune_first glob_match (CallGet (PStr "a") PNone 600) []
           store_a_expiring eq_refl eq_refl eq_refl).
Defined.

(** C7, as stated, fails at [reset]: with ["a"] expired at instant 600,
    [reset] empties the tables but the expired counter stays at 0 instead
    of growing by the one expired key. *)
Lemma reset_skips_the_prune :
  expired_keys 600 (_ttl store_a_expiring) = ["a"]
  /\ core CallReset = true
  /\ wf store_a_expiring = true
  /\ expired (_stats (snd (reset store_a_expiring))) = 0
  /\ ~ pruned_first 600 CallReset store_a_expiring
         (snd (fst (step glob_match CallReset [] store_a_expiring))).
Proof.
  repeat split. intros (_ & H & _). vm_compute in H. discriminate.
Qed.

(** * Writing: [set] *)

(** C1 (the code departs from the claim): [set] checks the TTL only after
    it has stored the value.  On a fresh store [set("a", 1, ttl=0)] raises
    [PocketDBInvalidValueError] and leaves ["a"] stored; on a store holding
    ["a" = 0], [set("a", 1, ttl=-5)] raises and leaves ["a" = 1]. *)
Theorem set_bad_ttl_writes_before_raising :
  set (PStr "a") (PInt 1) (PInt 0) 100 100 fresh
  = (Raise PocketDBInvalidValueError, with_data [("a", PInt 1)] fresh)
  /\ Dict.get "a" (_data store_a_expiring) = Some (PInt 0)
  /\ set (PStr "a") (PInt 1) (PInt (-5)) 100 100 store_a_expiring
     = (Raise PocketDBInvalidValueError,
        with_data [("a", PInt 1)] store_a_expiring).
Proof. repeat split. Qed.

(** The same on every store whose tables are in step: the value is written,
    then the TTL is refused. *)
Lemma set_refused_ttl_stores_value k value ttl t now now' db :
  strip k <> "" -> json_dumps_ok value = true -> wf db = true ->
  isinstance_int ttl = Some t -> t <= 0 ->
  fst (set (PStr k) value ttl now now' db) = Raise PocketDBInvalidValueError
  /\ Dict.get k (_data (snd (set (PStr k) value ttl now now' db)))
     = Some value.
Proof.
  intros Hk Hv Hwf Ht Hle. rewrite (set_wf k value ttl now now' db Hk Hv Hwf).
  cbv zeta. rewrite Ht. apply Z.leb_le in Hle. rewrite Hle. split.
  - reflexivity.
  - cbn [snd _data with_data]. now rewrite get_set, String.eqb_refl.
Qed.

(** C2, as stated, fails for a float TTL: [set("a", 1, 2.5)] on a store
    where ["a"] expires at 500 returns [True] and drops the expiry. *)
Lemma set_float_ttl_succeeds :
  positive_int (PFloat (5 # 2)) = false
  /\ Dict.get "a" (_ttl store_a_expiring) = Some 500
  /\ set (PStr "a") (PInt 1) (PFloat (5 # 2)) 100 100 store_a_expiring
     = (Return true, with_data [("a", PInt 1)] fresh).
Proof. repeat split. Qed.

(** C2 (amended): on a store whose tables are in step, for a valid key and
    value, [set] with an integer TTL that is zero or negative raises
    [PocketDBInvalidValueError] and neither records nor drops an expiry;
    with a TTL that is not an integer (a float, a string, none at all) it
    returns [True] and removes the key's expiry. *)
Theorem set_ttl_gate k value ttl now now' db :
  strip k <> "" -> json_dumps_ok value = true -> wf db = true ->
  (forall t, isinstance_int ttl = Some t -> t <= 0 ->
     fst (set (PStr k) value ttl now now' db) = Raise PocketDBInvalidValueError
     /\ _ttl (snd (set (PStr k) value ttl now now' db)) = _ttl (pruned now db))
  /\ (isinstance_int ttl = None ->
      fst (set (PStr k) value ttl now now' db) = Return true
      /\ _ttl (snd (set (PStr k) value ttl now now' db))
         = Dict.del k (_ttl (pruned now db))).
Proof.
  intros Hk Hv Hwf. rewrite (set_wf k value ttl now now' db Hk Hv Hwf).
  cbv zeta. split.
  - intros t -> Ht. apply Z.leb_le in Ht. rewrite Ht. split; reflexivity.
  - intros ->. split; reflexivity.
Qed.

Lemma set_ttl_gate_witness :
  (forall t, isinstance_int (PStr "soon") = Some t -> t <= 0 ->
     fst (set (PStr "a") (PInt 1) (PStr "soon") 100 100 store_a_expiring)
     = Raise PocketDBInvalidValueError
     /\ _ttl (snd (set (PStr "a") (PInt 1) (PStr "soon") 100 100
                     store_a_expiring))
        = _ttl (pruned 100 store_a_expiring))
  /\ (isinstance_int (PStr "soon") = None ->
      fst (set (PStr "a") (PInt 1) (PStr "soon") 100 100 store_a_expiring)
      = Return true
      /\ _ttl (snd (set (PStr "a") (PInt 1) (PStr "soon") 100 100
                      store_a_expiring))
         = Dict.del "a" (_ttl (pruned 100 store_a_expiring))).
Proof.
  apply (set_ttl_gate "a" (PInt 1) (PStr "soon") 100 100 store_a_expiring).
  - vm_compute. discriminate.
  - reflexivity.
  - reflexivity.
Defined.

(** * Reading: [get] and [keys] *)

(** C5, as stated, fails for a null default: [get("a", None)] on a store
    without ["a"] raises [PocketDBKeyNotFoundError] instead of returning
    [None]. *)
Lemma get_null_default_raises :
  Dict.mem "a" (_data fresh) = false
  /\ fst (get (PStr "a") PNone 0 fresh) = Raise PocketDBKeyNotFoundError
  /\ fst (get (PStr "a") PNone 0 fresh) <> Return PNone.
Proof. repeat split. discriminate. Qed.

(** C5 (amended): for a valid key absent after the prune, [get] increments
    [gets] and [misses]; it returns the default when that is not null, and
    raises [PocketDBKeyNotFoundError] when the default is null or was not
    given. *)
Theorem get_absent k d now db db1 :
  strip k <> "" ->
  _prune_expired now db = (Return tt, db1) ->
  Dict.mem k (_data db1) = false ->
  get (PStr k) d now db
  = (match d with PNone => Raise PocketDBKeyNotFoundError | _ => Return d end,
     with_stats (incr_misses (incr_gets (_stats db1))) db1)
  /\ gets (_stats (snd (get (PStr k) d now db))) = gets (_stats db1) + 1
  /\ misses (_stats (snd (get (PStr k) d now db))) = misses (_stats db1) + 1.
Proof.
  intros Hk Hp Hm. rewrite (get_after_prune k d now db db1 Hk Hp).
  unfold Dict.mem in Hm.
  destruct (Dict.get k (_data db1)); [discriminate|].
  repeat split.
Qed.

Lemma get_absent_witness :
  get (PStr "b") (PInt 7) 600 store_a_expiring
  = (Return (PInt 7),
     with_stats (incr_misses (incr_gets (_stats (pruned 600 store_a_expiring))))
       (pruned 600 store_a_expiring))
  /\ gets (_stats (snd (get (PStr "b") (PInt 7) 600 store_a_expiring)))
     = gets (_stats (pruned 600 store_a_expiring)) + 1
  /\ misses (_stats (snd (get (PStr "b") (PInt 7) 600 store_a_expiring)))
     = misses (_stats (pruned 600 store_a_expiring)) + 1.
Proof.
  apply (get_absent "b" (PInt 7) 600 store_a_expiring
           (pruned 600 store_a_expiring)).
  - vm_compute. discriminate.
  - reflexivity.
  - reflexivity.
Defined.

(** C3, as stated, fails for a pattern with [?] and no [*]: ["ab"] is
    stored and glob-matches ["a?"], yet [keys("a?")] returns no key. *)
Lemma keys_question_mark_is_literal :
  contains_char "?"%char "a?" = true
  /\ Dict.mem "ab" (_data store_ab) = true
  /\ glob_match "ab" "a?" = true
  /\ fst (keys glob_match "a?" 0 store_ab) = Return [].
Proof. repeat split. Qed.

(** C3 (amended): on a store whose tables are in step, [keys(pattern)]
    prunes and returns exactly the live keys selected by the pattern:
    every key for ["*"], the keys the library's matcher accepts when the
    pattern contains [*], and otherwise - also when the pattern contains
    [?] - only the key equal to the pattern. *)
Theorem keys_selects f pattern now db :
  wf db = true ->
  exists l,
    keys f pattern now db = (Return l, pruned now db)
    /\ forall key,
         In key l
         <-> In key (Dict.keys (_data (pruned now db)))
             /\ (if contains_char "*"%char pattern
                 then pattern = "*" \/ f key pattern = true
                 else key = pattern).
Proof.
  intros Hwf. unfold keys. unfold bind at 1.
  rewrite (_prune_expired_wf now db Hwf). unfold bind, self, ret.
  destruct (String.eqb_spec pattern "*") as [->|Hne].
  - eexists. split; [reflexivity|]. intros key. cbn. tauto.
  - destruct (contains_char "*"%char pattern) eqn:Hstar;
      (eexists; split; [reflexivity|]); intros key; rewrite filter_In.
    + tauto.
    + rewrite String.eqb_eq. tauto.
Qed.

Lemma keys_selects_witness :
  exists l,
    keys glob_match "a?" 0 store_ab = (Return l, pruned 0 store_ab)
    /\ forall key,
         In key l
         <-> In key (Dict.keys (_data (pruned 0 store_ab)))
             /\ (if contains_char "*"%char "a?"
                 then "a?" = "*" \/ glob_match key "a?" = true
                 else key = "a?").
Proof. exact (keys_selects glob_match "a?" 0 store_ab eq_refl). Defined.

(** * Sequences of calls *)

Lemma fresh_wf name : wf (__init__ name) = true.
Proof. reflexivity. Qed.

Lemma keeps_wf db db' : keeps db db' -> wf db = true -> wf db' = true.
Proof.
  unfold keeps, wf. rewrite !andb_true_iff. intros (A & B & _) [Hu Hi]. auto.
Qed.

(** C6: whatever public operations other than [load_from_disk] are called
    on a new store, and however many of them are successful [set]s,
    [stats()] returns and reports [sets = 0]. *)
Theorem sets_counter_stays_zero f name cs disk now :
  forallb (fun c => negb (is_load c)) cs = true ->
  exists r db',
    stats now (fst (run f cs disk (__init__ name))) = (Return r, db')
    /\ r_sets r = 0.
Proof.
  intros Hcs. pose proof (run_keeps f cs disk (__init__ name) Hcs) as Hk.
  pose proof (keeps_wf _ _ Hk (fresh_wf name)) as Hwf.
  destruct Hk as (_ & _ & Hsets).
  unfold stats. unfold bind at 1. rewrite (_prune_expired_wf now _ Hwf).
  unfold bind, self, ret. eexists. eexists. split; [reflexivity|].
  cbn [r_sets]. unfold pruned. cbn [_stats add_expired sets]. exact Hsets.
Qed.

Lemma sets_counter_stays_zero_witness :
  exists r db',
    stats 10
      (fst (run glob_match
              [CallSet (PStr "a") (PInt 1) PNone 0 0;
               CallSet (PStr "b") (PInt 2) (PInt 5) 1 1;
               CallGet (PStr "a") PNone 2;
               CallSet (PStr "a") (PStr "again") PNone 3 3]
              [] (__init__ "pocketdb")))
    = (Return r, db')
    /\ r_sets r = 0.
Proof.
  apply (sets_counter_stays_zero glob_match "pocketdb"
           [CallSet (PStr "a") (PInt 1) PNone 0 0;
            CallSet (PStr "b") (PInt 2) (PInt 5) 1 1;
            CallGet (PStr "a") PNone 2;
            CallSet (PStr "a") (PStr "again") PNone 3 3] [] 10).
  reflexivity.
Defined.

(** C8: in every state reached from a new store by public operations
    other than [load_from_disk], every key of the expiry table is a key of
    the value table; and each of those operations (set, get, delete,
    exists, size, keys, values, items, reset, save, stats, quit) keeps that
    property from any store that has it, whether it returns or raises. *)
Theorem expiry_keys_have_values f c cs name disk disk' db :
  forallb (fun c => negb (is_load c)) cs = true ->
  is_load c = false ->
  ttl_in_data db = true ->
  ttl_in_data (fst (run f cs disk (__init__ name))) = true
  /\ ttl_in_data (snd (fst (step f c disk' db))) = true.
Proof.
  intros Hcs Hc Hdb. split.
  - destruct (run_keeps f cs disk (__init__ name) Hcs) as (H & _). now apply H.
  - destruct (step_keeps f c disk' db Hc) as (H & _). now apply H.
Qed.

Lemma expiry_keys_have_values_witness :
  ttl_in_data
    (fst (run glob_match
            [CallSet (PStr "a") (PInt 1) (PInt 5) 0 0;
             CallSet (PStr "a") (PInt 2) (PInt 0) 1 1;
             CallDelete (PStr "a") 2]
            [] (__init__ "pocketdb"))) = true
  /\ ttl_in_data
       (snd (fst (step glob_match (CallSet (PStr "b") (PInt 1) (PInt (-1)) 700 700)
                    [] store_a_expiring))) = true.
Proof.
  apply (expiry_keys_have_values glob_match
           (CallSet (PStr "b") (PInt 1) (PInt (-1)) 700 700)
           [CallSet (PStr "a") (PInt 1) (PInt 5) 0 0;
            CallSet (PStr "a") (PInt 2) (PInt 0) 1 1;
            CallDelete (PStr "a") 2]
           "pocketdb" [] [] store_a_expiring); reflexivity.
Defined.

(** * Round trips *)

(** C9: for a valid key and a JSON-serializable value, on a store whose
    tables are in step, [set(key, value)] returns [True] and a [get(key)]
    that follows returns that value, whatever the clock readings and the
    default; and [set] never returns anything but [True]. *)
Theorem set_then_get k value d now now' now2 db :
  strip k <> "" -> json_dumps_ok value = true -> wf db = true ->
  (exists db1 db2,
     set (PStr k) value PNone now now' db = (Return true, db1)
     /\ get (PStr k) d now2 db1 = (Return value, db2))
  /\ (forall key v ttl n n' db0 b,
        fst (set key v ttl n n' db0) = Return b -> b = true).
Proof.
  intros Hk Hv Hwf. split.
  - pose proof (keeps_wf _ _ (set_keeps (PStr k) value PNone now now' db) Hwf)
      as Hwf1.
    rewrite (set_wf k value PNone now now' db Hk Hv Hwf) in *.
    cbv zeta in *. cbn [isinstance_int snd] in *.
    eexists. eexists. split; [reflexivity|].
    rewrite (get_after_prune k d now2 _ _ Hk (_prune_expired_wf now2 _ Hwf1)).
    unfold pruned at 1. cbn [_data with_ttl with_data].
    rewrite get_remove_keys, get_set, String.eqb_refl.
    destruct (existsb (String.eqb k) _) eqn:Hx; [|reflexivity].
    apply existsb_eqb_in, expired_keys_in in Hx.
    cbn [_ttl with_ttl with_data] in Hx.
    rewrite mem_del, String.eqb_refl in Hx. discriminate.
  - intros key v ttl n n' db0 b. unfold set. split_m; intros H;
      inversion H; reflexivity.
Qed.

Lemma set_then_get_witness :
  (exists db1 db2,
     set (PStr "a") (PList [PInt 1; PStr "x"]) PNone 600 600 store_a_expiring
     = (Return true, db1)
     /\ get (PStr "a") PNone 700 db1 = (Return (PList [PInt 1; PStr "x"]), db2))
  /\ (forall key v ttl n n' db0 b,
        fst (set key v ttl n n' db0) = Return b -> b = true).
Proof.
  apply (set_then_get "a" (PList [PInt 1; PStr "x"]) PNone 600 600 700
           store_a_expiring).
  - vm_compute. discriminate.
  - reflexivity.
  - reflexivity.
Defined.

(** With distinct keys, a key is among the expired ones exactly when it is
    not live. *)
Lemma expired_not_live now (t : dict Z) k :
  unique_keys t = true ->
  existsb (String.eqb k) (expired_keys now t) = negb (live now t k).
Proof.
  unfold live, expired_keys. induction t as [|[k0 e0] t IH]; intros Hu.
  - reflexivity.
  - cbn [unique_keys] in Hu. apply andb_true_iff in Hu.
    destruct Hu as [Hn Hu]. apply negb_true_iff in Hn.
    cbn [filter snd Dict.get].
    destruct (String.eqb_spec k0 k) as [->|Hne].
    + destruct (now >? e0) eqn:He; cbn [map fst existsb negb].
      * now rewrite String.eqb_refl.
      * apply not_true_is_false. intros Hx.
        apply existsb_eqb_in in Hx.
        apply (expired_keys_in now t k) in Hx. congruence.
    + destruct (now >? e0); cbn [map fst existsb].
      * destruct (String.eqb_spec k k0); [congruence|]. now apply IH.
      * now apply IH.
Qed.

Lemma remove_expired_live {V} now (t : dict Z) (d : dict V) :
  unique_keys t = true ->
  remove_keys (expired_keys now t) d
  = filter (fun kv => live now t (fst kv)) d.
Proof.
  intros Hu. unfold remove_keys. apply filter_ext. intros [k v]. cbn [fst].
  rewrite (expired_not_live now t k Hu). apply negb_involutive.
Qed.

(** A file that cannot be read leaves the store as it was. *)
Lemma load_unreadable filename now disk db :
  Dict.get (resolve filename db) disk = None
  \/ Dict.get (resolve filename db) disk = Some Corrupt ->
  load_from_disk filename now disk db = (Raise PocketDBDiskError, db).
Proof. unfold load_from_disk. intros [-> | ->]; reflexivity. Qed.

(** C4 (the code departs from the claim): [load_from_disk] assigns the
    three fields before it prunes.  Loading a snapshot whose expiry table
    names a key without a value fails with [PocketDBDiskError] during the
    prune, and the store is left with the snapshot's tables: the entry
    ["ab"] it held is gone. *)
Theorem load_failure_overwrites_tables :
  Dict.mem "ab" (_data store_ab) = true
  /\ load_from_disk (Some "snap.pdb") 100 ghost_disk store_ab
     = (Raise PocketDBDiskError,
        with_ttl [("ghost", 0)] (with_data [] store_ab))
  /\ snd (load_from_disk (Some "snap.pdb") 100 ghost_disk store_ab)
     <> store_ab.
Proof. repeat split. discriminate. Qed.

(** C10: on a store whose tables are in step, a [save_to_disk] that
    succeeds leaves the store as the prune left it, and a [load_from_disk]
    of the same file into a new store succeeds with the saved value and
    expiry tables restricted to the entries not expired at the time of the
    load. *)
Theorem save_then_load fn now_s now_l io disk db name' db1 disk1 :
  wf db = true ->
  save_to_disk (Some fn) now_s io disk db = (Return true, db1, disk1) ->
  db1 = pruned now_s db
  /\ exists db2,
       load_from_disk (Some fn) now_l disk1 (__init__ name')
       = (Return true, db2)
       /\ _data db2 = filter (fun kv => live now_l (_ttl db1) (fst kv)) (_data db1)
       /\ _ttl db2 = filter (fun ke => negb (now_l >? snd ke)) (_ttl db1).
Proof.
  intros Hwf Hsave. unfold save_to_disk in Hsave. cbn [resolve] in Hsave.
  rewrite (_prune_expired_wf now_s db Hwf) in Hsave.
  destruct io; inversion Hsave; subst db1 disk1; clear Hsave.
  split; [reflexivity|].
  pose proof (pruned_wf now_s db Hwf) as Hwf1.
  unfold load_from_disk. cbn [resolve].
  rewrite get_set, String.eqb_refl. cbn [b_data b_ttl b_stats].
  set (db3 := with_stats _ (with_ttl _ (with_data _ _))).
  assert (Hwf3 : wf db3 = true) by exact Hwf1.
  rewrite (_prune_expired_wf now_l db3 Hwf3).
  eexists. split; [reflexivity|].
  apply andb_true_iff in Hwf1. destruct Hwf1 as [Hu _].
  unfold pruned at 1 3. cbn [_data _ttl]. subst db3.
  cbn [_data _ttl with_stats with_ttl with_data]. split.
  - now apply remove_expired_live.
  - now apply remove_expired_filter.
Qed.

Lemma save_then_load_witness :
  snd (fst (save_to_disk (Some "snap.pdb") 100 IoOk [] store_a_expiring))
  = pruned 100 store_a_expiring
  /\ exists db2,
       load_from_disk (Some "snap.pdb") 600
         (snd (save_to_disk (Some "snap.pdb") 100 IoOk [] store_a_expiring))
         (__init__ "other")
       = (Return true, db2)
       /\ _data db2
          = filter
              (fun kv =>
                 live 600
                   (_ttl (snd (fst (save_to_disk (Some "snap.pdb") 100 IoOk []
                                      store_a_expiring))))
                   (fst kv))
              (_data (snd (fst (save_to_disk (Some "snap.pdb") 100 IoOk []
                                  store_a_expiring))))
       /\ _ttl db2
          = filter (fun ke => negb (600 >? snd ke))
              (_ttl (snd (fst (save_to_disk (Some "snap.pdb") 100 IoOk []
                                 store_a_expiring)))).
Proof.
  apply (save_then_load "snap.pdb" 100 600 IoOk [] store_a_expiring "other").
  - reflexivity.
  - reflexivity.
Defined.

(** * The engine on the repository's own test inputs *)

Example key_validation :
  fst (set (PInt 123) (PStr "value") PNone 0 0 fresh)
  = Raise PocketDBInvalidKeyError
  /\ fst (set (PStr "") (PStr "value") PNone 0 0 fresh)
     = Raise PocketDBInvalidKeyError
  /\ fst (set (PStr "   ") (PStr "value") PNone 0 0 fresh)
     = Raise PocketDBInvalidKeyError
  /\ fst (set (PStr "key-with-dashes") (PStr "value") PNone 0 0 fresh)
     = Return true.
Proof. repeat split. Qed.

Example value_validation :
  fst (set (PStr "key7") (PDict [(PStr "a", PInt 1); (PStr "b", PInt 2)])
         PNone 0 0 fresh) = Return true
  /\ set (PStr "key8") (PObject 0) PNone 0 0 fresh
     = (Raise PocketDBInvalidValueError, fresh).
Proof. repeat split. Qed.

Example ttl_expiry :
  fst (run glob_match [CallSet (PStr "temp_data") (PStr "x") (PInt 2) 10 10]
         [] fresh)
  = with_ttl [("temp_data", 12)] (with_data [("temp_data", PStr "x")] fresh)
  /\ fst (get (PStr "temp_data") PNone 12
            (fst (run glob_match
                    [CallSet (PStr "temp_data") (PStr "x") (PInt 2) 10 10]
                    [] fresh)))
     = Return (PStr "x")
  /\ fst (exists_ (PStr "temp_data") 13
            (fst (run glob_match
                    [CallSet (PStr "temp_data") (PStr "x") (PInt 2) 10 10]
                    [] fresh)))
     = Return false.
Proof. repeat split. Qed.

Example keys_prefix :
  fst (keys glob_match "user:*" 0
         (with_data [("user:1", PInt 1); ("user:2", PInt 2);
                     ("order:1", PInt 3)] fresh))
  = Return ["user:1"; "user:2"].
Proof. reflexivity. Qed.

(** A snapshot from elsewhere can break the tables' invariant without
    failing: nothing in it has expired yet, so the prune has nothing to
    delete. *)
Example load_can_break_the_invariant :
  load_from_disk (Some "snap.pdb") (-1) ghost_disk fresh
  = (Return true, with_ttl [("ghost", 0)] fresh)
  /\ ttl_in_data (with_ttl [("ghost", 0)] fresh) = false.
Proof. repeat split. Qed.

(** * Validation *)

Lemma lstrip_empty s : lstrip s = "" <-> all_space s = true.
Proof.
  induction s as [|c s IH]; cbn [lstrip all_space].
  - tauto.
  - destruct (isspace c); cbn [andb]; [exact IH|]. split; discriminate.
Qed.

Lemma all_space_rev s : forall acc,
  all_space (rev_string s acc) = all_space s && all_space acc.
Proof.
  induction s as [|c s IH]; intros acc; cbn [rev_string all_space].
  - reflexivity.
  - rewrite IH. cbn [all_space].
    destruct (isspace c), (all_space s), (all_space acc); reflexivity.
Qed.

Lemma rev_string_empty s : forall acc,
  rev_string s acc = "" <-> s = "" /\ acc = "".
Proof.
  induction s as [|c s IH]; intros acc; cbn [rev_string].
  - tauto.
  - rewrite IH. split; [intros [_ H]; discriminate | intros [H _]; discriminate].
Qed.

Lemma all_space_lstrip s : all_space (lstrip s) = all_space s.
Proof.
  induction s as [|c s IH]; cbn [lstrip all_space]; [reflexivity|].
  destruct (isspace c) eqn:Hc; cbn [andb]; [exact IH|].
  cbn [all_space]. now rewrite Hc.
Qed.

(** [key.strip()] is empty exactly for a blank key. *)
Lemma strip_empty s : strip s = "" <-> all_space s = true.
Proof.
  unfold strip. rewrite rev_string_empty, lstrip_empty, all_space_rev.
  rewrite all_space_lstrip. cbn [all_space]. rewrite andb_true_r.
  tauto.
Qed.

Lemma _validate_key_blank s db :
  _validate_key (PStr s) db
  = if all_space s then (Raise PocketDBInvalidKeyError, db) else (Return s, db).
Proof.
  unfold _validate_key. destruct (all_space s) eqn:Hs.
  - apply strip_empty in Hs. now rewrite Hs.
  - destruct (String.eqb_spec (strip s) ""); [|reflexivity].
    apply strip_empty in e. congruence.
Qed.


(** X2: with a key that fails validation, [set], [get], [delete] and
    [exists] raise [PocketDBInvalidKeyError] before anything else: the
    store is not pruned and no counter moves. *)
Theorem invalid_key_rejected_first key value ttl d now now' db :
  valid_key key = false ->
  set key value ttl now now' db = (Raise PocketDBInvalidKeyError, db)
  /\ get key d now db = (Raise PocketDBInvalidKeyError, db)
  /\ delete key now db = (Raise PocketDBInvalidKeyError, db)
  /\ exists_ key now db = (Raise PocketDBInvalidKeyError, db).
Proof.
  intros Hk.
  assert (Hv : _validate_key key db = (Raise PocketDBInvalidKeyError, db)).
  { unfold _validate_key. destruct key; try reflexivity.
    cbn [valid_key] in Hk. apply negb_false_iff in Hk. now rewrite Hk. }
  unfold set, get, delete, exists_.
  repeat split; unfold bind at 1; now rewrite Hv.
Qed.

Lemma invalid_key_rejected_first_witness :
  set (PStr "  ") (PInt 1) (PInt 5) 600 600 store_a_expiring
  = (Raise PocketDBInvalidKeyError, store_a_expiring)
  /\ get (PStr "  ") PNone 600 store_a_expiring
     = (Raise PocketDBInvalidKeyError, store_a_expiring)
  /\ delete (PStr "  ") 600 store_a_expiring
     = (Raise PocketDBInvalidKeyError, store_a_expiring)
  /\ exists_ (PStr "  ") 600 store_a_expiring
     = (Raise PocketDBInvalidKeyError, store_a_expiring).
Proof.
  exact (invalid_key_rejected_first (PStr "  ") (PInt 1) (PInt 5) PNone 600 600
           store_a_expiring eq_refl).
Defined.

(** X3: [set] with a valid key and a value [json.dumps] refuses raises
    [PocketDBInvalidValueError] and leaves the store exactly as it was: no
    entry is created, nothing is pruned. *)
Theorem unserializable_value_rejected k value ttl now now' db :
  strip k <> "" -> json_dumps_ok value = false ->
  set (PStr k) value ttl now now' db = (Raise PocketDBInvalidValueError, db).
Proof.
  intros Hk Hv. apply String.eqb_neq in Hk.
  unfold set, _validate_key, _validate_value. rewrite Hk, Hv. reflexivity.
Qed.

Lemma unserializable_value_rejected_witness :
  set (PStr "a") (PList [PInt 1; PDict [(PStr "f", PObject 0)]]) (PInt 5)
    600 600 store_a_expiring
  = (Raise PocketDBInvalidValueError, store_a_expiring).
Proof.
  apply (unserializable_value_rejected "a"
           (PList [PInt 1; PDict [(PStr "f", PObject 0)]]) (PInt 5) 600 600
           store_a_expiring).
  - vm_compute. discriminate.
  - reflexivity.
Defined.

(** * The other methods once the prune has returned *)

Lemma with_ttl_del_absent k db :
  Dict.mem k (_ttl db) = false -> with_ttl (Dict.del k (_ttl db)) db = db.
Proof. intros H. rewrite (del_absent _ _ H). now destruct db. Qed.

Lemma delete_after_prune k now db db1 :
  strip k <> "" ->
  _prune_expired now db = (Return tt, db1) ->
  delete (PStr k) now db
  = if Dict.mem k (_data db1)
    then (Return true,
          with_stats (incr_deletes (_stats db1))
            (with_ttl (Dict.del k (_ttl db1))
               (with_data (Dict.del k (_data db1)) db1)))
    else (Return false, db1).
Proof.
  intros Hk Hp. apply String.eqb_neq in Hk.
  unfold delete, _validate_key. rewrite Hk.
  unfold bind at 1. unfold ret at 1. unfold bind at 1. rewrite Hp.
  unfold bind at 1. unfold self at 1.
  destruct (Dict.mem k (_data db1)) eqn:Hd; [|reflexivity].
  unfold bind at 1. unfold del_data. rewrite Hd.
  unfold bind at 1. unfold bind at 1. unfold self at 1.
  change (_ttl (with_data (Dict.del k (_data db1)) db1)) with (_ttl db1).
  destruct (Dict.mem k (_ttl db1)) eqn:Ht.
  - unfold del_ttl.
    change (_ttl (with_data (Dict.del k (_data db1)) db1)) with (_ttl db1).
    rewrite Ht. reflexivity.
  - unfold ret at 1. unfold bind, bump, modify, ret.
    rewrite <- (with_ttl_del_absent k (with_data (Dict.del k (_data db1)) db1))
      at 1 2 by exact Ht.
    reflexivity.
Qed.

Lemma exists_after_prune k now db db1 :
  strip k <> "" ->
  _prune_expired now db = (Return tt, db1) ->
  exists_ (PStr k) now db = (Return (Dict.mem k (_data db1)), db1).
Proof.
  intros Hk Hp. apply String.eqb_neq in Hk.
  unfold exists_, _validate_key. rewrite Hk.
  unfold bind at 1. unfold ret at 1. unfold bind at 1. now rewrite Hp.
Qed.

Lemma size_after_prune now db db1 :
  _prune_expired now db = (Return tt, db1) ->
  size now db = (Return (Z.of_nat (length (_data db1))), db1).
Proof. intros Hp. unfold size. unfold bind at 1. now rewrite Hp. Qed.

Lemma values_after_prune now db db1 :
  _prune_expired now db = (Return tt, db1) ->
  values now db = (Return (Dict.values (_data db1)), db1).
Proof. intros Hp. unfold values. unfold bind at 1. now rewrite Hp. Qed.

Lemma items_after_prune now db db1 :
  _prune_expired now db = (Return tt, db1) ->
  items now db = (Return (_data db1), db1).
Proof. intros Hp. unfold items. unfold bind at 1. now rewrite Hp. Qed.

Lemma keys_all_after_prune f now db db1 :
  _prune_expired now db = (Return tt, db1) ->
  keys f "*" now db = (Return (Dict.keys (_data db1)), db1).
Proof. intros Hp. unfold keys. unfold bind at 1. now rewrite Hp. Qed.

(** X4: for a valid key present after the prune, [get] returns the stored
    value whatever default was given, and increments [gets] and [hits]
    (and nothing else). *)
Theorem get_present k d now db db1 v :
  strip k <> "" ->
  _prune_expired now db = (Return tt, db1) ->
  Dict.get k (_data db1) = Some v ->
  get (PStr k) d now db
  = (Return v, with_stats (incr_hits (incr_gets (_stats db1))) db1)
  /\ gets (_stats (snd (get (PStr k) d now db))) = gets (_stats db1) + 1
  /\ hits (_stats (snd (get (PStr k) d now db))) = hits (_stats db1) + 1
  /\ misses (_stats (snd (get (PStr k) d now db))) = misses (_stats db1).
Proof.
  intros Hk Hp Hv. rewrite (get_after_prune k d now db db1 Hk Hp), Hv.
  repeat split.
Qed.

Lemma get_present_witness :
  get (PStr "a") (PStr "fallback") 400 store_a_expiring
  = (Return (PInt 0),
     with_stats (incr_hits (incr_gets (_stats (pruned 400 store_a_expiring))))
       (pruned 400 store_a_expiring))
  /\ gets (_stats (snd (get (PStr "a") (PStr "fallback") 400 store_a_expiring)))
     = gets (_stats (pruned 400 store_a_expiring)) + 1
  /\ hits (_stats (snd (get (PStr "a") (PStr "fallback") 400 store_a_expiring)))
     = hits (_stats (pruned 400 store_a_expiring)) + 1
  /\ misses (_stats (snd (get (PStr "a") (PStr "fallback") 400
                            store_a_expiring)))
     = misses (_stats (pruned 400 store_a_expiring)).
Proof.
  apply (get_present "a" (PStr "fallback") 400 store_a_expiring
           (pruned 400 store_a_expiring) (PInt 0)).
  - vm_compute. discriminate.
  - reflexivity.
  - reflexivity.
Defined.

(** * Deleting and testing for a key *)

Lemma wf_ttl_absent k db :
  wf db = true -> Dict.mem k (_data db) = false -> Dict.mem k (_ttl db) = false.
Proof.
  unfold wf. rewrite andb_true_iff, ttl_in_data_spec. intros [_ H] Hd.
  destruct (Dict.mem k (_ttl db)) eqn:Ht; [|reflexivity].
  rewrite (H k Ht) in Hd. discriminate.
Qed.

(** The store [delete] leaves has the key in neither table. *)
Lemma delete_wf_state k now db :
  strip k <> "" -> wf db = true ->
  wf (snd (delete (PStr k) now db)) = true
  /\ Dict.mem k (_data (snd (delete (PStr k) now db))) = false
  /\ Dict.mem k (_ttl (snd (delete (PStr k) now db))) = false.
Proof.
  intros Hk Hwf.
  pose proof (keeps_wf _ _ (delete_keeps (PStr k) now db) Hwf) as Hwf'.
  split; [exact Hwf'|].
  assert (Hd : Dict.mem k (_data (snd (delete (PStr k) now db))) = false).
  { rewrite (delete_after_prune k now db _ Hk (_prune_expired_wf now db Hwf)).
    destruct (Dict.mem k (_data (pruned now db))) eqn:Hd; cbn [snd].
    - cbn [_data with_stats with_ttl with_data].
      now rewrite mem_del, String.eqb_refl.
    - exact Hd. }
  split; [exact Hd | now apply wf_ttl_absent].
Qed.

(** X5: on a store whose tables are in step, [delete] of a valid key
    returns whether the key was live (never raising for an absent key),
    leaves the key in neither table, counts one delete exactly when it
    removed something, and leaves every other key's value and expiry as
    the prune left them. *)
Theorem delete_removes k now db :
  strip k <> "" -> wf db = true ->
  fst (delete (PStr k) now db) = Return (Dict.mem k (_data (pruned now db)))
  /\ Dict.mem k (_data (snd (delete (PStr k) now db))) = false
  /\ Dict.mem k (_ttl (snd (delete (PStr k) now db))) = false
  /\ deletes (_stats (snd (delete (PStr k) now db)))
     = deletes (_stats db)
       + (if Dict.mem k (_data (pruned now db)) then 1 else 0)
  /\ forall k', k' <> k ->
       Dict.get k' (_data (snd (delete (PStr k) now db)))
       = Dict.get k' (_data (pruned now db))
       /\ Dict.get k' (_ttl (snd (delete (PStr k) now db)))
          = Dict.get k' (_ttl (pruned now db)).
Proof.
  intros Hk Hwf.
  destruct (delete_wf_state k now db Hk Hwf) as (_ & Hd & Ht).
  split; [|split; [exact Hd|split; [exact Ht|]]]; clear Hd Ht;
    rewrite (delete_after_prune k now db _ Hk (_prune_expired_wf now db Hwf));
    destruct (Dict.mem k (_data (pruned now db))) eqn:Hm; cbn [fst snd];
    try reflexivity.
  - cbn [_data _ttl _stats with_stats with_ttl with_data incr_deletes deletes].
    split; [reflexivity|]. intros k' Hk'.
    split; rewrite get_del; now destruct (String.eqb_spec k' k).
  - split; [|intros k' Hk'; split; reflexivity].
    unfold pruned. cbn [_stats add_expired deletes]. lia.
Qed.

Lemma delete_removes_witness :
  fst (delete (PStr "a") 400 store_a_expiring)
  = Return (Dict.mem "a" (_data (pruned 400 store_a_expiring)))
  /\ Dict.mem "a" (_data (snd (delete (PStr "a") 400 store_a_expiring))) = false
  /\ Dict.mem "a" (_ttl (snd (delete (PStr "a") 400 store_a_expiring))) = false
  /\ deletes (_stats (snd (delete (PStr "a") 400 store_a_expiring)))
     = deletes (_stats store_a_expiring)
       + (if Dict.mem "a" (_data (pruned 400 store_a_expiring)) then 1 else 0)
  /\ forall k', k' <> "a" ->
       Dict.get k' (_data (snd (delete (PStr "a") 400 store_a_expiring)))
       = Dict.get k' (_data (pruned 400 store_a_expiring))
       /\ Dict.get k' (_ttl (snd (delete (PStr "a") 400 store_a_expiring)))
          = Dict.get k' (_ttl (pruned 400 store_a_expiring)).
Proof.
  apply (delete_removes "a" 400 store_a_expiring).
  - vm_compute. discriminate.
  - reflexivity.
Defined.

(** X6: after [delete(key)], at any later clock reading, [exists(key)]
    returns [False] and [get(key)] without a default raises
    [PocketDBKeyNotFoundError]. *)
Theorem delete_then_absent k now now2 db :
  strip k <> "" -> wf db = true ->
  fst (exists_ (PStr k) now2 (snd (delete (PStr k) now db))) = Return false
  /\ fst (get (PStr k) PNone now2 (snd (delete (PStr k) now db)))
     = Raise PocketDBKeyNotFoundError.
Proof.
  intros Hk Hwf.
  destruct (delete_wf_state k now db Hk Hwf) as (Hwf' & Hd & _).
  pose proof (_prune_expired_wf now2 _ Hwf') as Hp.
  assert (Hm : Dict.mem k (_data (pruned now2 (snd (delete (PStr k) now db))))
               = false).
  { unfold pruned. cbn [_data]. rewrite mem_remove_keys, Hd.
    apply andb_false_r. }
  rewrite (exists_after_prune k now2 _ _ Hk Hp).
  rewrite (get_after_prune k PNone now2 _ _ Hk Hp).
  unfold Dict.mem in Hm.
  destruct (Dict.get k (_data (pruned now2 (snd (delete (PStr k) now db)))))
    eqn:Hg; [discriminate|].
  unfold Dict.mem. rewrite Hg. split; reflexivity.
Qed.

Lemma delete_then_absent_witness :
  fst (exists_ (PStr "a") 450 (snd (delete (PStr "a") 400 store_a_expiring)))
  = Return false
  /\ fst (get (PStr "a") PNone 450 (snd (delete (PStr "a") 400 store_a_expiring)))
     = Raise PocketDBKeyNotFoundError.
Proof.
  apply (delete_then_absent "a" 400 450 store_a_expiring).
  - vm_compute. discriminate.
  - reflexivity.
Defined.

(** X7: on a store whose tables are in step, [exists] of a valid key
    returns whether the key is live after the prune, and does nothing but
    prune: [gets], [hits] and [misses] stay as they were.  It answers
    [False] exactly when [get] without a default would raise
    [PocketDBKeyNotFoundError]. *)
Theorem exists_only_reads k now db :
  strip k <> "" -> wf db = true ->
  exists_ (PStr k) now db
  = (Return (Dict.mem k (_data (pruned now db))), pruned now db)
  /\ gets (_stats (snd (exists_ (PStr k) now db))) = gets (_stats db)
  /\ hits (_stats (snd (exists_ (PStr k) now db))) = hits (_stats db)
  /\ misses (_stats (snd (exists_ (PStr k) now db))) = misses (_stats db)
  /\ (fst (exists_ (PStr k) now db) = Return false
      <-> fst (get (PStr k) PNone now db) = Raise PocketDBKeyNotFoundError).
Proof.
  intros Hk Hwf. pose proof (_prune_expired_wf now db Hwf) as Hp.
  rewrite (exists_after_prune k now db _ Hk Hp).
  rewrite (get_after_prune k PNone now db _ Hk Hp).
  repeat split; cbn [fst]; unfold Dict.mem;
    destruct (Dict.get k (_data (pruned now db))); cbn [fst];
    congruence.
Qed.

Lemma exists_only_reads_witness :
  exists_ (PStr "a") 600 store_a_expiring
  = (Return (Dict.mem "a" (_data (pruned 600 store_a_expiring))),
     pruned 600 store_a_expiring)
  /\ gets (_stats (snd (exists_ (PStr "a") 600 store_a_expiring)))
     = gets (_stats store_a_expiring)
  /\ hits (_stats (snd (exists_ (PStr "a") 600 store_a_expiring)))
     = hits (_stats store_a_expiring)
  /\ misses (_stats (snd (exists_ (PStr "a") 600 store_a_expiring)))
     = misses (_stats store_a_expiring)
  /\ (fst (exists_ (PStr "a") 600 store_a_expiring) = Return false
      <-> fst (get (PStr "a") PNone 600 store_a_expiring)
          = Raise PocketDBKeyNotFoundError).
Proof.
  apply (exists_only_reads "a" 600 store_a_expiring).
  - vm_compute. discriminate.
  - reflexivity.
Defined.

(** * Pruning again *)

Lemma expired_keys_none now (t : dict Z) :
  forallb (fun ke => negb (now >? snd ke)) t = true -> expired_keys now t = [].
Proof.
  unfold expired_keys. induction t as [|[k e] t IH]; cbn [forallb filter snd].
  - reflexivity.
  - rewrite andb_true_iff, negb_true_iff. intros [-> H]. now apply IH.
Qed.

(** A store without expired entries is left as it is. *)
Lemma pruned_fixed now db : none_expired now db = true -> pruned now db = db.
Proof.
  unfold none_expired, pruned. intros H. rewrite (expired_keys_none _ _ H).
  rewrite !remove_keys_nil. cbn [length]. rewrite add_expired_0.
  now destruct db.
Qed.

(** With distinct keys, lookup commutes with a filter on the values. *)
Lemma get_filter_value {V} (P : V -> bool) k (d : dict V) :
  unique_keys d = true ->
  Dict.get k (filter (fun kv => P (snd kv)) d)
  = match Dict.get k d with
    | Some v => if P v then Some v else None
    | None => None
    end.
Proof.
  induction d as [|[k0 v0] d IH]; intros Hu; cbn [filter snd Dict.get].
  - reflexivity.
  - cbn [unique_keys] in Hu. apply andb_true_iff in Hu. destruct Hu as [Hn Hu].
    apply negb_true_iff in Hn.
    destruct (String.eqb_spec k0 k) as [->|Hne].
    + destruct (P v0); cbn [Dict.get].
      * now rewrite String.eqb_refl.
      * rewrite (IH Hu). unfold Dict.mem in Hn.
        now destruct (Dict.get k d).
    + destruct (P v0); cbn [Dict.get].
      * destruct (String.eqb_spec k0 k); [congruence | now apply IH].
      * now apply IH.
Qed.

Lemma filter_filter_and {A} (f g : A -> bool) (l : list A) :
  filter f (filter g l) = filter (fun x => g x && f x) l.
Proof.
  induction l as [|x l IH]; cbn [filter]; [reflexivity|].
  destruct (g x); cbn [filter andb]; [|exact IH].
  destruct (f x); now rewrite IH.
Qed.

Lemma expired_count_split now1 now2 (t : dict Z) :
  now1 <= now2 ->
  (length (expired_keys now1 t)
   + length (expired_keys now2 (filter (fun ke => negb (now1 >? snd ke)) t)))%nat
  = length (expired_keys now2 t).
Proof.
  intros Hle. unfold expired_keys. rewrite !length_map.
  induction t as [|[k e] t IH]; cbn [filter snd]; [reflexivity|].
  destruct (now1 >? e) eqn:H1; cbn [negb filter snd length].
  - assert (H2 : (now2 >? e) = true) by (apply Z.gtb_lt; apply Z.gtb_lt in H1; lia).
    rewrite H2. cbn [length]. now rewrite <- IH.
  - destruct (now2 >? e); cbn [length]; rewrite <- IH; lia.
Qed.

Lemma pruned_pruned now1 now2 db :
  wf db = true -> now1 <= now2 -> pruned now2 (pruned now1 db) = pruned now2 db.
Proof.
  intros Hwf Hle. pose proof Hwf as Hwf0.
  apply andb_true_iff in Hwf. destruct Hwf as [Hu _].
  pose proof (pruned_wf now1 db Hwf0) as Hwf1.
  apply andb_true_iff in Hwf1. destruct Hwf1 as [Hu1 _].
  assert (Ht1 : _ttl (pruned now1 db)
                = filter (fun ke => negb (now1 >? snd ke)) (_ttl db))
    by (apply remove_expired_filter; exact Hu).
  unfold pruned at 1 3.
  rewrite (remove_expired_filter now2 _ Hu1), (remove_expired_live now2 _ _ Hu1).
  rewrite (remove_expired_filter now2 _ Hu), (remove_expired_live now2 _ _ Hu).
  rewrite Ht1. unfold pruned at 1 2 3 4.
  cbn [name default_filename _data _ttl _stats _is_running].
  rewrite (remove_expired_live now1 _ (_data db) Hu).
  rewrite !filter_filter_and. f_equal.
  - apply filter_ext. intros [k v]. cbn [fst]. unfold live.
    rewrite (get_filter_value (fun e => negb (now1 >? e)) k (_ttl db) Hu).
    destruct (Dict.get k (_ttl db)) as [e|]; [|reflexivity].
    destruct (now1 >? e) eqn:H1; cbn [negb andb].
    + symmetry. apply negb_false_iff. apply Z.gtb_lt. apply Z.gtb_lt in H1. lia.
    + reflexivity.
  - apply filter_ext. intros [k e]. cbn [snd].
    destruct (now1 >? e) eqn:H1; cbn [negb andb]; [|reflexivity].
    symmetry. apply negb_false_iff. apply Z.gtb_lt. apply Z.gtb_lt in H1. lia.
  - destruct (_stats db). unfold add_expired. cbn. f_equal.
    rewrite <- (expired_count_split now1 now2 (_ttl db) Hle). lia.
Qed.

(** X8: pruning at an instant and again at a later one (or the same)
    leaves exactly what one prune at the later instant leaves, the expired
    counter included; so the prune that opens every operation never
    counts an entry twice. *)
Theorem prune_composes now1 now2 db :
  wf db = true -> now1 <= now2 ->
  exists db1,
    _prune_expired now1 db = (Return tt, db1)
    /\ _prune_expired now2 db1 = _prune_expired now2 db.
Proof.
  intros Hwf Hle. exists (pruned now1 db). split.
  - now apply _prune_expired_wf.
  - rewrite (_prune_expired_wf now2 _ (pruned_wf now1 db Hwf)).
    rewrite (_prune_expired_wf now2 db Hwf).
    now rewrite pruned_pruned.
Qed.

Lemma prune_composes_witness :
  exists db1,
    _prune_expired 400 store_a_expiring = (Return tt, db1)
    /\ _prune_expired 600 db1 = _prune_expired 600 store_a_expiring.
Proof.
  apply (prune_composes 400 600 store_a_expiring).
  - reflexivity.
  - lia.
Defined.

(** * Enumerating, and what [set] changes *)

Lemma combine_keys_values {V} (d : dict V) :
  combine (Dict.keys d) (Dict.values d) = d.
Proof.
  unfold Dict.keys, Dict.values.
  induction d as [|[k v] d IH]; cbn; [reflexivity | now rewrite IH].
Qed.

(** X9: on a store whose tables are in step, [keys("*")], [values],
    [items] and [size], called at one clock reading, describe the same
    entries in the same order: [items] is [keys] paired with [values] and
    [size] is their common length; each leaves the store as the prune
    left it. *)
Theorem enumerations_agree f now db :
  wf db = true ->
  exists ks vs,
    keys f "*" now db = (Return ks, pruned now db)
    /\ values now db = (Return vs, pruned now db)
    /\ items now db = (Return (combine ks vs), pruned now db)
    /\ size now db = (Return (Z.of_nat (length ks)), pruned now db)
    /\ length vs = length ks.
Proof.
  intros Hwf. pose proof (_prune_expired_wf now db Hwf) as Hp.
  exists (Dict.keys (_data (pruned now db))),
         (Dict.values (_data (pruned now db))).
  rewrite (keys_all_after_prune f now db _ Hp), (values_after_prune now db _ Hp),
    (items_after_prune now db _ Hp), (size_after_prune now db _ Hp).
  rewrite combine_keys_values. unfold Dict.keys, Dict.values.
  rewrite !length_map. repeat split.
Qed.

Lemma enumerations_agree_witness :
  exists ks vs,
    keys glob_match "*" 600 store_a_expiring
    = (Return ks, pruned 600 store_a_expiring)
    /\ values 600 store_a_expiring = (Return vs, pruned 600 store_a_expiring)
    /\ items 600 store_a_expiring
       = (Return (combine ks vs), pruned 600 store_a_expiring)
    /\ size 600 store_a_expiring
       = (Return (Z.of_nat (length ks)), pruned 600 store_a_expiring)
    /\ length vs = length ks.
Proof. exact (enumerations_agree glob_match 600 store_a_expiring eq_refl). Defined.

Lemma keys_dict_set {V} k (v : V) (d : dict V) :
  Dict.keys (Dict.set k v d)
  = if Dict.mem k d then Dict.keys d else (Dict.keys d ++ [k])%list.
Proof.
  unfold Dict.keys, Dict.mem.
  induction d as [|[k0 v0] d IH]; cbn [Dict.set Dict.get map fst app].
  - reflexivity.
  - destruct (String.eqb_spec k0 k) as [->|Hne]; cbn [map fst].
    + reflexivity.
    + rewrite IH. now destruct (Dict.get k d).
Qed.

Lemma set_wf_data k value ttl now now' db :
  strip k <> "" -> json_dumps_ok value = true -> wf db = true ->
  _data (snd (set (PStr k) value ttl now now' db))
  = Dict.set k value (_data (pruned now db)).
Proof.
  intros Hk Hv Hwf. rewrite (set_wf k value ttl now now' db Hk Hv Hwf).
  cbv zeta. destruct (isinstance_int ttl) as [t|]; [destruct (t <=? 0)|];
    reflexivity.
Qed.

(** X10: on a store whose tables are in step, [set] of a valid key and
    value changes no other key: every other key keeps the value and the
    expiry the prune left it.  In the order [keys] reports, a key that was
    live keeps its place and a new key goes last, so the number of entries
    grows by one exactly for a new key. *)
Theorem set_touches_one_key k value ttl now now' db :
  strip k <> "" -> json_dumps_ok value = true -> wf db = true ->
  (forall k', k' <> k ->
     Dict.get k' (_data (snd (set (PStr k) value ttl now now' db)))
     = Dict.get k' (_data (pruned now db))
     /\ Dict.get k' (_ttl (snd (set (PStr k) value ttl now now' db)))
        = Dict.get k' (_ttl (pruned now db)))
  /\ Dict.keys (_data (snd (set (PStr k) value ttl now now' db)))
     = (if Dict.mem k (_data (pruned now db))
        then Dict.keys (_data (pruned now db))
        else (Dict.keys (_data (pruned now db)) ++ [k])%list)
  /\ length (_data (snd (set (PStr k) value ttl now now' db)))
     = (length (_data (pruned now db))
        + (if Dict.mem k (_data (pruned now db)) then 0 else 1))%nat.
Proof.
  intros Hk Hv Hwf. split; [|split].
  - intros k' Hne. rewrite (set_wf_data k value ttl now now' db Hk Hv Hwf).
    rewrite get_set. destruct (String.eqb_spec k' k); [congruence|].
    split; [reflexivity|].
    rewrite (set_wf k value ttl now now' db Hk Hv Hwf). cbv zeta.
    destruct (isinstance_int ttl) as [t|]; [destruct (t <=? 0)|];
      cbn [snd _ttl with_ttl with_data]; try reflexivity.
    + rewrite get_set. now destruct (String.eqb_spec k' k).
    + rewrite get_del. now destruct (String.eqb_spec k' k).
  - rewrite (set_wf_data k value ttl now now' db Hk Hv Hwf).
    apply keys_dict_set.
  - rewrite <- (length_map fst (_data (snd _))).
    change (map fst ?d) with (Dict.keys d).
    rewrite (set_wf_data k value ttl now now' db Hk Hv Hwf), keys_dict_set.
    unfold Dict.keys.
    destruct (Dict.mem k (_data (pruned now db)));
      [|rewrite length_app]; rewrite length_map; cbn [length]; lia.
Qed.

Lemma set_touches_one_key_witness :
  (forall k', k' <> "b" ->
     Dict.get k' (_data (snd (set (PStr "b") (PInt 2) (PInt 9) 400 400
                                store_a_expiring)))
     = Dict.get k' (_data (pruned 400 store_a_expiring))
     /\ Dict.get k' (_ttl (snd (set (PStr "b") (PInt 2) (PInt 9) 400 400
                                  store_a_expiring)))
        = Dict.get k' (_ttl (pruned 400 store_a_expiring)))
  /\ Dict.keys (_data (snd (set (PStr "b") (PInt 2) (PInt 9) 400 400
                              store_a_expiring)))
     = (if Dict.mem "b" (_data (pruned 400 store_a_expiring))
        then Dict.keys (_data (pruned 400 store_a_expiring))
        else (Dict.keys (_data (pruned 400 store_a_expiring)) ++ ["b"])%list)
  /\ length (_data (snd (set (PStr "b") (PInt 2) (PInt 9) 400 400
                           store_a_expiring)))
     = (length (_data (pruned 400 store_a_expiring))
        + (if Dict.mem "b" (_data (pruned 400 store_a_expiring))
           then 0 else 1))%nat.
Proof.
  apply (set_touches_one_key "b" (PInt 2) (PInt 9) 400 400 store_a_expiring).
  - vm_compute. discriminate.
  - reflexivity.
  - reflexivity.
Defined.

(** * Expiry *)




(** * Resetting *)

(** X12: [reset] cannot fail and needs no clock: from any store, even one
    whose tables a foreign snapshot has put out of step, it leaves two
    empty tables and every counter as it was.  After it [size] returns 0,
    [keys] returns no key for any pattern, [get] misses, and a second
    [reset] changes nothing. *)
Theorem reset_empties f pattern k now db :
  fst (reset db) = Return tt
  /\ _data (snd (reset db)) = []
  /\ _ttl (snd (reset db)) = []
  /\ _stats (snd (reset db)) = _stats db
  /\ wf (snd (reset db)) = true
  /\ size now (snd (reset db)) = (Return 0, snd (reset db))
  /\ keys f pattern now (snd (reset db)) = (Return [], snd (reset db))
  /\ fst (exists_ (PStr k) now (snd (reset db)))
     = (if all_space k then Raise PocketDBInvalidKeyError else Return false)
  /\ reset (snd (reset db)) = reset db.
Proof.
  repeat split.
  - unfold keys, reset, modify. cbn.
    destruct (String.eqb pattern "*"); [reflexivity|].
    destruct (contains_char "*"%char pattern); reflexivity.
  - unfold exists_. unfold bind at 1.
    rewrite _validate_key_blank.
    destruct (all_space k); reflexivity.
Qed.

(** * The counters *)

Lemma grows_refl db : grows db db.
Proof. unfold grows, stats_le. intuition lia. Qed.

Lemma grows_trans db1 db2 db3 : grows db1 db2 -> grows db2 db3 -> grows db1 db3.
Proof.
  unfold grows, stats_le. intuition lia.
Qed.

Lemma prune_loop_grows ks : forall db, grows db (snd (prune_loop ks db)).
Proof.
  induction ks as [|key ks IH]; intros db.
  - apply grows_refl.
  - cbn [prune_loop]. unfold bind at 1. unfold del_data.
    destruct (Dict.mem key (_data db)); [|apply grows_refl].
    unfold bind at 1. unfold del_ttl. cbn [_ttl with_data].
    destruct (Dict.mem key (_ttl db)).
    + unfold bind at 1. unfold bump, modify.
      eapply grows_trans; [|apply IH].
      unfold grows, stats_le, counters_ok. cbn. intuition lia.
    + unfold grows, stats_le, counters_ok. cbn. intuition lia.
Qed.

Lemma _prune_expired_grows now db : grows db (snd (_prune_expired now db)).
Proof. unfold _prune_expired, bind, self. apply prune_loop_grows. Qed.

Ltac after_prune_grows :=
  match goal with
  | H : _prune_expired ?n ?d = (_, ?d1) |- grows ?d _ =>
      apply grows_trans with d1;
      [generalize (_prune_expired_grows n d); rewrite H; exact (fun x => x)|]
  | _ => idtac
  end.

Ltac finish_grows :=
  unfold grows, stats_le, counters_ok; cbn; intuition lia.

Lemma step_grows f c disk db :
  is_load c = false -> grows db (snd (fst (step f c disk db))).
Proof.
  intros Hc. destruct c; try discriminate; cbn [step];
    try rewrite in_memory_state.
  - unfold set. split_m; after_prune_grows; finish_grows.
  - unfold get. split_m; after_prune_grows; finish_grows.
  - unfold delete. split_m; after_prune_grows; finish_grows.
  - unfold exists_. split_m; after_prune_grows; finish_grows.
  - unfold size. split_m; after_prune_grows; finish_grows.
  - unfold keys. split_m; after_prune_grows; finish_grows.
  - unfold values. split_m; after_prune_grows; finish_grows.
  - unfold items. split_m; after_prune_grows; finish_grows.
  - unfold reset. split_m; finish_grows.
  - unfold stats. split_m; after_prune_grows; finish_grows.
  - unfold on_disk, save_to_disk. split_m; after_prune_grows; finish_grows.
  - unfold on_disk, quit, save_to_disk. split_m.
    all: match goal with
         | H : _prune_expired ?n ?d = (_, ?d1) |- grows ?d0 _ =>
             apply grows_trans with d1;
             [generalize (_prune_expired_grows n d); rewrite H; exact (fun x => x)|]
         end; finish_grows.
Qed.

Lemma run_grows f cs : forall disk db,
  forallb (fun c => negb (is_load c)) cs = true ->
  grows db (fst (run f cs disk db)).
Proof.
  induction cs as [|c cs IH]; intros disk db H; cbn [run].
  - apply grows_refl.
  - cbn [forallb] in H. apply andb_true_iff in H. destruct H as [Hc H].
    apply negb_true_iff in Hc.
    generalize (step_grows f c disk db Hc).
    destruct (step f c disk db) as [[o db'] disk']. cbn [fst snd]. intros Hk.
    eapply grows_trans; [exact Hk | now apply IH].
Qed.

Lemma wf_ttl_length db :
  wf db = true -> (length (_ttl db) <= length (_data db))%nat.
Proof.
  unfold wf. rewrite andb_true_iff, ttl_in_data_spec. intros [Hu Hin].
  rewrite <- (length_map fst (_ttl db)), <- (length_map fst (_data db)).
  apply NoDup_incl_length.
  - now apply unique_keys_NoDup in Hu.
  - intros k Hk. apply mem_in_keys. apply Hin. now apply mem_in_keys.
Qed.

Lemma fresh_counters_ok name : counters_ok (_stats (__init__ name)).
Proof. unfold counters_ok. cbn. lia. Qed.

(** X13: after any sequence of public operations other than
    [load_from_disk] on a new store, [stats()] returns a consistent
    report: every counted [get] is a hit or a miss ([gets = hits +
    misses]), no counter is negative, the hit rate lies between 0 and 1,
    and the number of keys with an expiry is at most the number of
    keys. *)
Theorem stats_report_consistent f name cs disk now :
  forallb (fun c => negb (is_load c)) cs = true ->
  exists r db',
    stats now (fst (run f cs disk (__init__ name))) = (Return r, db')
    /\ r_gets r = r_hits r + r_misses r
    /\ 0 <= r_hits r /\ 0 <= r_misses r /\ 0 <= r_deletes r /\ 0 <= r_expired r
    /\ (0 <= r_hit_rate r)%Q /\ (r_hit_rate r <= 1)%Q
    /\ 0 <= r_ttl_keys r <= r_size r.
Proof.
  intros Hcs.
  pose proof (keeps_wf _ _ (run_keeps f cs disk (__init__ name) Hcs)
                (fresh_wf name)) as Hwf.
  destruct (run_grows f cs disk (__init__ name) Hcs) as [_ Hok].
  specialize (Hok (fresh_counters_ok name)).
  set (db := fst (run f cs disk (__init__ name))) in *.
  pose proof (_prune_expired_grows now db) as [_ Hok'].
  specialize (Hok' Hok).
  pose proof (wf_ttl_length _ (pruned_wf now db Hwf)) as Hlen.
  rewrite (_prune_expired_wf now db Hwf) in Hok'. cbn [snd] in Hok'.
  unfold stats. unfold bind at 1. rewrite (_prune_expired_wf now db Hwf).
  unfold bind, self, ret. eexists. eexists. split; [reflexivity|].
  cbn [r_gets r_hits r_misses r_deletes r_expired r_hit_rate r_ttl_keys r_size].
  destruct Hok' as (Hg & Hh & Hm & Hd & He).
  repeat (split; [assumption || lia|]).
  split; [|split; [|lia]].
  - destruct (gets (_stats (pruned now db)) >? 0); unfold Qle;
      cbn [Qnum Qden]; lia.
  - destruct (gets (_stats (pruned now db)) >? 0) eqn:Hpos; unfold Qle;
      cbn [Qnum Qden]; [|lia].
    apply Z.gtb_lt in Hpos. rewrite Z2Pos.id by lia. lia.
Qed.

Lemma stats_report_consistent_witness :
  exists r db',
    stats 10
      (fst (run glob_match
              [CallSet (PStr "a") (PInt 1) (PInt 5) 0 0;
               CallGet (PStr "a") PNone 2;
               CallGet (PStr "b") PNone 3;
               CallGet (PStr "a") (PInt 0) 7;
               CallDelete (PStr "a") 8]
              [] (__init__ "pocketdb")))
    = (Return r, db')
    /\ r_gets r = r_hits r + r_misses r
    /\ 0 <= r_hits r /\ 0 <= r_misses r /\ 0 <= r_deletes r /\ 0 <= r_expired r
    /\ (0 <= r_hit_rate r)%Q /\ (r_hit_rate r <= 1)%Q
    /\ 0 <= r_ttl_keys r <= r_size r.
Proof.
  apply (stats_report_consistent glob_match "pocketdb"
           [CallSet (PStr "a") (PInt 1) (PInt 5) 0 0;
            CallGet (PStr "a") PNone 2;
            CallGet (PStr "b") PNone 3;
            CallGet (PStr "a") (PInt 0) 7;
            CallDelete (PStr "a") 8] [] 10).
  reflexivity.
Defined.

(** X14: no public operation other than [load_from_disk] ever lowers a
    counter: over any sequence of such calls, from any store, each of
    [gets], [sets], [deletes], [hits], [misses] and [expired] ends at
    least where it started - also when calls raise. *)
Theorem counters_never_decrease f cs disk db :
  forallb (fun c => negb (is_load c)) cs = true ->
  stats_le (_stats db) (_stats (fst (run f cs disk db))).
Proof. intros Hcs. now destruct (run_grows f cs disk db Hcs). Qed.

Lemma counters_never_decrease_witness :
  stats_le (_stats store_a_expiring)
    (_stats (fst (run glob_match
                    [CallGet (PStr "a") PNone 600;
                     CallSet (PStr "a") (PInt 1) (PInt 0) 601 601;
                     CallReset;
                     CallSave None 602 OpenFails]
                    [] store_a_expiring))).
Proof.
  apply (counters_never_decrease glob_match
           [CallGet (PStr "a") PNone 600;
            CallSet (PStr "a") (PInt 1) (PInt 0) 601 601;
            CallReset;
            CallSave None 602 OpenFails] [] store_a_expiring).
  reflexivity.
Defined.

(** * Saving and loading *)

Lemma get_set_other {V} k k' (v : V) (d : dict V) :
  k' <> k -> Dict.get k' (Dict.set k v d) = Dict.get k' d.
Proof. intros H. rewrite get_set. now destruct (String.eqb_spec k' k). Qed.

(** X15: on a store whose tables are in step, [save_to_disk] leaves in
    memory exactly what its prune leaves, whatever happens to the write,
    and touches no file but its target.  When the write goes through it
    returns [True] and the target holds the pruned tables and the
    counters; when the file cannot be opened it raises
    [PocketDBDiskError] and the disk is as before. *)
Theorem save_outcomes filename now io disk db :
  wf db = true ->
  snd (fst (save_to_disk filename now io disk db)) = pruned now db
  /\ (forall f', f' <> resolve filename db ->
        Dict.get f' (snd (save_to_disk filename now io disk db))
        = Dict.get f' disk)
  /\ match io with
     | IoOk =>
         fst (fst (save_to_disk filename now io disk db)) = Return true
         /\ Dict.get (resolve filename db)
              (snd (save_to_disk filename now io disk db))
            = Some (Pickle (mkBackup (_data (pruned now db))
                              (Some (_ttl (pruned now db)))
                              (Some (_stats (pruned now db)))))
     | OpenFails =>
         fst (fst (save_to_disk filename now io disk db))
         = Raise PocketDBDiskError
         /\ snd (save_to_disk filename now io disk db) = disk
     | DumpFails =>
         fst (fst (save_to_disk filename now io disk db))
         = Raise PocketDBDiskError
         /\ Dict.get (resolve filename db)
              (snd (save_to_disk filename now io disk db))
            = Some Corrupt
     end.
Proof.
  intros Hwf. unfold save_to_disk. rewrite (_prune_expired_wf now db Hwf).
  destruct io; cbn [fst snd]; (split; [reflexivity|]); split;
    try (intros f' Hf'; now (reflexivity || apply get_set_other));
    split; try reflexivity; now rewrite get_set, String.eqb_refl.
Qed.

Lemma save_outcomes_witness :
  snd (fst (save_to_disk None 600 IoOk ghost_disk store_a_expiring))
  = pruned 600 store_a_expiring
  /\ (forall f', f' <> resolve None store_a_expiring ->
        Dict.get f' (snd (save_to_disk None 600 IoOk ghost_disk store_a_expiring))
        = Dict.get f' ghost_disk)
  /\ (fst (fst (save_to_disk None 600 IoOk ghost_disk store_a_expiring))
      = Return true
      /\ Dict.get (resolve None store_a_expiring)
           (snd (save_to_disk None 600 IoOk ghost_disk store_a_expiring))
         = Some (Pickle (mkBackup (_data (pruned 600 store_a_expiring))
                           (Some (_ttl (pruned 600 store_a_expiring)))
                           (Some (_stats (pruned 600 store_a_expiring)))))).
Proof.
  exact (save_outcomes None 600 IoOk ghost_disk store_a_expiring eq_refl).
Defined.


(** X17: when the file to load is missing, or holds bytes [pickle.load]
    rejects, [load_from_disk] raises [PocketDBDiskError] and the store is
    exactly as it was. *)
Theorem load_unreadable_leaves_store filename now disk db :
  (forall b, Dict.get (resolve filename db) disk <> Some (Pickle b)) ->
  load_from_disk filename now disk db = (Raise PocketDBDiskError, db).
Proof.
  intros H. unfold load_from_disk.
  destruct (Dict.get (resolve filename db) disk) as [[|b]|]; try reflexivity.
  now destruct (H b).
Qed.

Lemma load_unreadable_leaves_store_witness :
  load_from_disk None 600 ghost_disk store_a_expiring
  = (Raise PocketDBDiskError, store_a_expiring).
Proof.
  apply (load_unreadable_leaves_store None 600 ghost_disk store_a_expiring).
  intros b. discriminate.
Defined.

(** Loading a snapshot whose tables are in step. *)
Lemma load_pickle_wf filename now disk db b :
  Dict.get (resolve filename db) disk = Some (Pickle b) ->
  wf (with_ttl (match b_ttl b with Some t => t | None => [] end)
        (with_data (b_data b) db)) = true ->
  load_from_disk filename now disk db
  = (Return true,
     pruned now
       (with_stats (match b_stats b with Some s => s | None => _stats db end)
          (with_ttl (match b_ttl b with Some t => t | None => [] end)
             (with_data (b_data b) db)))).
Proof.
  intros Hf Hwf. unfold load_from_disk. rewrite Hf.
  cbn [_stats with_ttl with_data].
  set (db3 := with_stats _ _).
  assert (Hwf3 : wf db3 = true) by exact Hwf.
  now rewrite (_prune_expired_wf now db3 Hwf3).
Qed.

(** X18: loading a snapshot whose expiry table is a dictionary with all
    its keys in the value table succeeds and replaces the tables
    wholesale: whatever the store held before, it now holds the
    snapshot's entries that have not expired, with the snapshot's
    counters (its own, if the snapshot has none) and the expired counter
    raised by the number of entries dropped.  Its name, default file and
    running flag are untouched. *)
Theorem load_replaces_tables filename now disk db b :
  Dict.get (resolve filename db) disk = Some (Pickle b) ->
  wf (with_ttl (match b_ttl b with Some t => t | None => [] end)
        (with_data (b_data b) db)) = true ->
  exists db',
    load_from_disk filename now disk db = (Return true, db')
    /\ _data db'
       = filter (fun kv =>
                   live now (match b_ttl b with Some t => t | None => [] end)
                     (fst kv))
           (b_data b)
    /\ _ttl db'
       = filter (fun ke => negb (now >? snd ke))
           (match b_ttl b with Some t => t | None => [] end)
    /\ _stats db'
       = add_expired
           (length (expired_keys now
                      (match b_ttl b with Some t => t | None => [] end)))
           (match b_stats b with Some s => s | None => _stats db end)
    /\ name db' = name db
    /\ default_filename db' = default_filename db
    /\ _is_running db' = _is_running db.
Proof.
  intros Hf Hwf. rewrite (load_pickle_wf filename now disk db b Hf Hwf).
  eexists. split; [reflexivity|].
  apply andb_true_iff in Hwf. destruct Hwf as [Hu _].
  cbn [_ttl with_ttl with_data] in Hu.
  unfold pruned.
  cbn [name default_filename _data _ttl _stats _is_running with_stats with_ttl
         with_data].
  rewrite (remove_expired_live now _ _ Hu), (remove_expired_filter now _ Hu).
  repeat split.
Qed.

Lemma load_replaces_tables_witness :
  exists db',
    load_from_disk (Some "snap.pdb") 600
      [("snap.pdb",
        Pickle (mkBackup [("x", PInt 1); ("y", PInt 2)]
                  (Some [("x", 500)]) None))]
      store_ab
    = (Return true, db')
    /\ _data db'
       = filter (fun kv => live 600 [("x", 500)] (fst kv))
           [("x", PInt 1); ("y", PInt 2)]
    /\ _ttl db' = filter (fun ke => negb (600 >? snd ke)) [("x", 500)]
    /\ _stats db'
       = add_expired (length (expired_keys 600 [("x", 500)])) (_stats store_ab)
    /\ name db' = name store_ab
    /\ default_filename db' = default_filename store_ab
    /\ _is_running db' = _is_running store_ab.
Proof.
  exact (load_replaces_tables (Some "snap.pdb") 600
           [("snap.pdb",
             Pickle (mkBackup [("x", PInt 1); ("y", PInt 2)]
                       (Some [("x", 500)]) None))]
           store_ab
           (mkBackup [("x", PInt 1); ("y", PInt 2)] (Some [("x", 500)]) None)
           eq_refl eq_refl).
Defined.

(** X19: [quit] on a store whose tables are in step, with a write that
    goes through, clears the running flag and saves the pruned tables to
    the default file [<name>.pdb]; a new store of the same name that then
    loads with no file name gets those tables back, restricted to the
    entries not expired at the time of the load, and is running. *)
Theorem quit_then_reopen n now now_l disk db :
  wf db = true -> default_filename db = (n ++ ".pdb")%string ->
  exists db1 disk1 db2,
    quit now IoOk disk db = (Return true, db1, disk1)
    /\ _is_running db1 = false
    /\ _data db1 = _data (pruned now db)
    /\ _ttl db1 = _ttl (pruned now db)
    /\ load_from_disk None now_l disk1 (__init__ n) = (Return true, db2)
    /\ _data db2 = filter (fun kv => live now_l (_ttl db1) (fst kv)) (_data db1)
    /\ _ttl db2 = filter (fun ke => negb (now_l >? snd ke)) (_ttl db1)
    /\ _is_running db2 = true.
Proof.
  intros Hwf Hname.
  assert (Hwf0 : wf (with_running false db) = true) by exact Hwf.
  pose proof (pruned_wf now _ Hwf0) as Hwf1.
  unfold quit, save_to_disk. rewrite (_prune_expired_wf now _ Hwf0).
  cbn [resolve default_filename with_running].
  eexists. eexists. eexists. split; [reflexivity|].
  split; [reflexivity|]. split; [reflexivity|]. split; [reflexivity|].
  assert (Hf : Dict.get (resolve None (__init__ n))
                 (Dict.set (default_filename db)
                    (Pickle (mkBackup (_data (pruned now (with_running false db)))
                               (Some (_ttl (pruned now (with_running false db))))
                               (Some (_stats (pruned now (with_running false db))))))
                    disk)
               = Some (Pickle (mkBackup (_data (pruned now (with_running false db)))
                                 (Some (_ttl (pruned now (with_running false db))))
                                 (Some (_stats (pruned now (with_running false db)))))))
    by (cbn [resolve __init__ default_filename]; rewrite Hname, get_set;
        now rewrite String.eqb_refl).
  rewrite (load_pickle_wf None now_l _ (__init__ n) _ Hf Hwf1).
  split; [reflexivity|].
  apply andb_true_iff in Hwf1. destruct Hwf1 as [Hu _]. clear Hf.
  set (p := pruned now (with_running false db)) in *.
  unfold pruned.
  cbn [name default_filename _data _ttl _stats _is_running with_stats with_ttl
         with_data b_data b_ttl b_stats __init__].
  rewrite (remove_expired_live now_l _ _ Hu), (remove_expired_filter now_l _ Hu).
  repeat split.
Qed.

Lemma quit_then_reopen_witness :
  exists db1 disk1 db2,
    quit 400 IoOk [] store_a_expiring = (Return true, db1, disk1)
    /\ _is_running db1 = false
    /\ _data db1 = _data (pruned 400 store_a_expiring)
    /\ _ttl db1 = _ttl (pruned 400 store_a_expiring)
    /\ load_from_disk None 450 disk1 (__init__ "pocketdb") = (Return true, db2)
    /\ _data db2 = filter (fun kv => live 450 (_ttl db1) (fst kv)) (_data db1)
    /\ _ttl db2 = filter (fun ke => negb (450 >? snd ke)) (_ttl db1)
    /\ _is_running db2 = true.
Proof.
  exact (quit_then_reopen "pocketdb" 400 450 [] store_a_expiring eq_refl eq_refl).
Defined.

(** * A store out of step *)

Lemma _prune_expired_stuck now db k rest :
  expired_keys now (_ttl db) = k :: rest ->
  Dict.mem k (_data db) = false ->
  _prune_expired now db = (Raise KeyError, db).
Proof.
  intros He Hk. unfold _prune_expired, bind, self. rewrite He.
  cbn [prune_loop]. unfold bind, del_data. now rewrite Hk.
Qed.

(** X20: a store whose first expired key has no value - which a loaded
    foreign snapshot can produce - is stuck: every pruning operation
    called with valid arguments raises a bare [KeyError] (not a PocketDB
    error) and [save_to_disk] raises [PocketDBDiskError] writing nothing,
    each leaving the store exactly as it was, so the next call fails the
    same way.  (Only [reset] or a successful load gets out of it.) *)
Theorem out_of_step_store_is_stuck f c filename io disk now db k rest :
  expired_keys now (_ttl db) = k :: rest ->
  Dict.mem k (_data db) = false ->
  prunes c = true -> well_formed_call c = true -> prune_clock c = now ->
  step f c disk db = (Raise KeyError, db, disk)
  /\ save_to_disk filename now io disk db = (Raise PocketDBDiskError, db, disk).
Proof.
  intros He Hk Hc Hw Hn.
  pose proof (_prune_expired_stuck now db k rest He Hk) as Hp.
  split; [|unfold save_to_disk; now rewrite Hp].
  destruct c; try discriminate; cbn [prune_clock] in Hn; subst now0;
    cbn [step well_formed_call] in *; unfold in_memory.
  - apply andb_true_iff in Hw. destruct Hw as [Hw _].
    apply andb_true_iff in Hw. destruct Hw as [Hkey Hv].
    destruct (valid_key_inv _ Hkey) as [s [-> Hs]]. apply String.eqb_neq in Hs.
    unfold set, _validate_key, _validate_value. rewrite Hs, Hv.
    unfold bind at 1. unfold ret at 1. unfold bind at 1. unfold ret at 1.
    unfold bind at 1. now rewrite Hp.
  - destruct (valid_key_inv _ Hw) as [s [-> Hs]]. apply String.eqb_neq in Hs.
    unfold get, _validate_key. rewrite Hs.
    unfold bind at 1. unfold ret at 1. unfold bind at 1. now rewrite Hp.
  - destruct (valid_key_inv _ Hw) as [s [-> Hs]]. apply String.eqb_neq in Hs.
    unfold delete, _validate_key. rewrite Hs.
    unfold bind at 1. unfold ret at 1. unfold bind at 1. now rewrite Hp.
  - destruct (valid_key_inv _ Hw) as [s [-> Hs]]. apply String.eqb_neq in Hs.
    unfold exists_, _validate_key. rewrite Hs.
    unfold bind at 1. unfold ret at 1. unfold bind at 1. now rewrite Hp.
  - unfold size. unfold bind at 1. now rewrite Hp.
  - unfold keys. unfold bind at 1. now rewrite Hp.
  - unfold values. unfold bind at 1. now rewrite Hp.
  - unfold items. unfold bind at 1. now rewrite Hp.
  - unfold stats. unfold bind at 1. now rewrite Hp.
Qed.

Lemma out_of_step_store_is_stuck_witness :
  step glob_match (CallGet (PStr "ab") PNone 5) [] (with_ttl [("ghost", 0)] store_ab)
  = (Raise KeyError, with_ttl [("ghost", 0)] store_ab, [])
  /\ save_to_disk None 5 IoOk [] (with_ttl [("ghost", 0)] store_ab)
     = (Raise PocketDBDiskError, with_ttl [("ghost", 0)] store_ab, []).
Proof.
  exact (out_of_step_store_is_stuck glob_match (CallGet (PStr "ab") PNone 5)
           None IoOk [] 5 (with_ttl [("ghost", 0)] store_ab) "ghost" []
           eq_refl eq_refl eq_refl eq_refl eq_refl).
Defined.

(** * The benchmark's bulk insert *)

Lemma str_of_int_inj i j : str_of_int i = str_of_int j -> i = j.
Proof.
  unfold str_of_int. intros H.
  apply (f_equal NilEmpty.uint_of_string) in H.
  rewrite !NilEmpty.usu in H. injection H as H.
  now apply Unsigned.to_uint_inj.
Qed.

Lemma test_key_inj i j :
  (KEY_PREFIX ++ str_of_int i = KEY_PREFIX ++ str_of_int j)%string -> i = j.
Proof.
  unfold KEY_PREFIX. cbn [String.append]. intros H. injection H as H.
  now apply str_of_int_inj.
Qed.

Lemma test_key_valid i : strip (KEY_PREFIX ++ str_of_int i) <> "".
Proof.
  intros H. apply strip_empty in H. unfold KEY_PREFIX in H.
  cbn [String.append all_space] in H. discriminate.
Qed.

Lemma set_absent_append {V} k (v : V) (d : dict V) :
  Dict.mem k d = false -> Dict.set k v d = (d ++ [(k, v)])%list.
Proof.
  unfold Dict.mem. induction d as [|[k0 v0] d IH]; cbn [Dict.get Dict.set app].
  - reflexivity.
  - destruct (String.eqb k0 k); [discriminate|]. intros H. now rewrite IH.
Qed.

Lemma test_entries_S n :
  test_entries (S n)
  = (test_entries n
     ++ [((KEY_PREFIX ++ str_of_int n)%string,
          PStr ("value_" ++ str_of_int n)%string)])%list.
Proof. unfold test_entries. now rewrite seq_S, map_app. Qed.

Lemma test_entries_absent n i :
  (n <= i)%nat -> Dict.mem (KEY_PREFIX ++ str_of_int i) (test_entries n) = false.
Proof.
  intros Hle. apply mem_false_not_in. unfold Dict.keys, test_entries.
  rewrite map_map. cbn [fst]. intros Hin. apply in_map_iff in Hin.
  destruct Hin as [j [Hj Hin]]. apply test_key_inj in Hj. subst j.
  apply in_seq in Hin. lia.
Qed.

Lemma test_entries_get n i :
  (i < n)%nat ->
  Dict.get (KEY_PREFIX ++ str_of_int i) (test_entries n)
  = Some (PStr ("value_" ++ str_of_int i)).
Proof.
  induction n as [|n IH]; intros Hlt; [lia|].
  rewrite test_entries_S, <- (set_absent_append _ _ _ (test_entries_absent n n (le_n n))).
  rewrite get_set.
  destruct (String.eqb_spec (KEY_PREFIX ++ str_of_int i) (KEY_PREFIX ++ str_of_int n))
    as [He|Hne].
  - apply test_key_inj in He. now subst.
  - apply IH. assert (i <> n) by congruence. lia.
Qed.

(** One iteration on a store that holds the first [i] test entries and no
    expiry. *)
Lemma populate_step now now' i db :
  _ttl db = [] -> _data db = test_entries i ->
  set (PStr (KEY_PREFIX ++ str_of_int i)) (PStr ("value_" ++ str_of_int i))
    PNone now now' db
  = (Return true, with_data (test_entries (S i)) db).
Proof.
  intros Ht Hd.
  assert (Hwf : wf db = true) by (unfold wf, ttl_in_data; now rewrite Ht).
  rewrite (set_wf (KEY_PREFIX ++ str_of_int i) (PStr ("value_" ++ str_of_int i))
             PNone now now' db (test_key_valid i) eq_refl Hwf).
  cbv zeta. cbn [isinstance_int].
  assert (Hp : pruned now db = db)
    by (apply pruned_fixed; unfold none_expired; now rewrite Ht).
  rewrite Hp, Ht, Hd.
  rewrite (set_absent_append _ _ _ (test_entries_absent i i (le_n i))).
  rewrite <- test_entries_S. destruct db. cbn in *. now subst.
Qed.

Lemma populate_loop_spec clock n : forall i db,
  (N.of_nat (i + n) <= NUMBER_OF_ITEMS)%N ->
  _ttl db = [] -> _data db = test_entries i ->
  populate_loop clock i n db = (None, with_data (test_entries (i + n)) db).
Proof.
  induction n as [|n IH]; intros i db Hle Ht Hd; cbn [populate_loop].
  - rewrite Nat.add_0_r, <- Hd. now destruct db.
  - unfold keys_to_test, values_to_test.
    assert (Hi : (N.of_nat i <? NUMBER_OF_ITEMS)%N = true)
      by (apply N.ltb_lt; lia).
    rewrite Hi, (populate_step _ _ i db Ht Hd).
    rewrite IH; [|lia|exact Ht|reflexivity].
    replace (S i + n)%nat with (i + S n)%nat by lia. now destruct db.
Qed.

(** X21: [populate_db(db, items)] on a new store, for [items] up to
    [NUMBER_OF_ITEMS], raises nothing and leaves exactly the entries
    [key_i => "value_i"], [i < items], in that order and without expiry.
    Afterwards [size] returns [items] and [get] of each [key_i] returns
    ["value_i"], at any clock reading. *)
Theorem populate_db_fills clock name items i now :
  (N.of_nat items <= NUMBER_OF_ITEMS)%N -> (i < items)%nat ->
  populate_db clock (__init__ name) items
  = (None, with_data (test_entries items) (__init__ name))
  /\ fst (size now (snd (populate_db clock (__init__ name) items)))
     = Return (Z.of_nat items)
  /\ fst (get (PStr (KEY_PREFIX ++ str_of_int i)) PNone now
            (snd (populate_db clock (__init__ name) items)))
     = Return (PStr ("value_" ++ str_of_int i)).
Proof.
  intros Hle Hi. unfold populate_db.
  rewrite (populate_loop_spec clock items 0 (__init__ name) Hle eq_refl eq_refl).
  cbn [Nat.add snd]. split; [reflexivity|].
  set (db := with_data (test_entries items) (__init__ name)).
  assert (Hp : _prune_expired now db = (Return tt, db)) by reflexivity.
  rewrite (size_after_prune now db db Hp).
  rewrite (get_after_prune _ PNone now db db (test_key_valid i) Hp).
  subst db. cbn [_data with_data fst]. rewrite (test_entries_get items i Hi).
  unfold test_entries. rewrite length_map, length_seq. split; reflexivity.
Qed.

Lemma populate_db_fills_witness :
  populate_db (fun i => (Z.of_nat i, Z.of_nat i)) (__init__ "performance_test_db") 3
  = (None, with_data (test_entries 3) (__init__ "performance_test_db"))
  /\ fst (size 99 (snd (populate_db (fun i => (Z.of_nat i, Z.of_nat i))
                          (__init__ "performance_test_db") 3)))
     = Return (Z.of_nat 3)
  /\ fst (get (PStr (KEY_PREFIX ++ str_of_int 2)) PNone 99
            (snd (populate_db (fun i => (Z.of_nat i, Z.of_nat i))
                    (__init__ "performance_test_db") 3)))
     = Return (PStr ("value_" ++ str_of_int 2)).
Proof.
  apply (populate_db_fills (fun i => (Z.of_nat i, Z.of_nat i))
           "performance_test_db" 3 2 99).
  - vm_compute. discriminate.
  - lia.
Defined.

Lemma populate_loop_past clock n : forall i db,
  (NUMBER_OF_ITEMS < N.of_nat (i + n))%N ->
  (N.of_nat i <= NUMBER_OF_ITEMS)%N ->
  _ttl db = [] -> _data db = test_entries i ->
  populate_loop clock i n db
  = (Some IndexError, with_data (test_entries (N.to_nat NUMBER_OF_ITEMS)) db).
Proof.
  induction n as [|n IH]; intros i db Hgt Hle Ht Hd; cbn [populate_loop].
  - lia.
  - unfold keys_to_test, values_to_test.
    destruct (N.ltb_spec (N.of_nat i) NUMBER_OF_ITEMS) as [Hi|Hi].
    + rewrite (populate_step _ _ i db Ht Hd).
      rewrite IH; [|lia|lia|exact Ht|reflexivity]. now destruct db.
    + assert (He : i = N.to_nat NUMBER_OF_ITEMS) by lia.
      rewrite <- He, <- Hd. now destruct db.
Qed.

(** X22: [populate_db(db, items)] on a new store with [items] beyond
    [NUMBER_OF_ITEMS] inserts the [NUMBER_OF_ITEMS] test entries and then
    fails with [IndexError] on the first index past the lists; the
    entries inserted so far stay. *)
Theorem populate_db_past_the_lists clock name items :
  (NUMBER_OF_ITEMS < N.of_nat items)%N ->
  populate_db clock (__init__ name) items
  = (Some IndexError,
     with_data (test_entries (N.to_nat NUMBER_OF_ITEMS)) (__init__ name)).
Proof.
  intros Hgt. unfold populate_db.
  apply populate_loop_past; try reflexivity; [exact Hgt | lia].
Qed.

Lemma populate_db_past_the_lists_witness :
  populate_db (fun _ => (0, 0)) (__init__ "performance_test_db")
    (N.to_nat 100001)
  = (Some IndexError,
     with_data (test_entries (N.to_nat NUMBER_OF_ITEMS))
       (__init__ "performance_test_db")).
Proof.
  apply (populate_db_past_the_lists (fun _ => (0, 0)) "performance_test_db"
           (N.to_nat 100001)).
  rewrite N2Nat.id. reflexivity.
Defined.

(** * The auto-save thread *)

Lemma prune_loop_running ks : forall db,
  _is_running (snd (prune_loop ks db)) = _is_running db.
Proof.
  induction ks as [|key ks IH]; intros db; [reflexivity|].
  cbn [prune_loop]. unfold bind at 1. unfold del_data.
  destruct (Dict.mem key (_data db)); [|reflexivity].
  unfold bind at 1. unfold del_ttl. cbn [_ttl with_data].
  destruct (Dict.mem key (_ttl db)); [|reflexivity].
  unfold bind at 1. unfold bump, modify. now rewrite IH.
Qed.

Lemma _prune_expired_running now db :
  _is_running (snd (_prune_expired now db)) = _is_running db.
Proof. unfold _prune_expired, bind, self. apply prune_loop_running. Qed.

Ltac running_tac :=
  unfold_m;
  repeat match goal with
         | H : _prune_expired ?n ?d = (_, ?d1) |- _ =>
             let E := fresh "E" in
             pose proof (_prune_expired_running n d) as E;
             rewrite H in E; cbn [snd] in E; clear H
         end;
  cbn [snd fst _is_running with_data with_ttl with_stats with_running] in *;
  congruence.

(** No call sets the running flag again. *)
Lemma step_stays_down f c disk db :
  _is_running db = false ->
  _is_running (snd (fst (step f c disk db))) = false.
Proof.
  intros Hdown. destruct c; cbn [step]; try rewrite in_memory_state.
  - unfold set. split_m; running_tac.
  - unfold get. split_m; running_tac.
  - unfold delete. split_m; running_tac.
  - unfold exists_. split_m; running_tac.
  - unfold size. split_m; running_tac.
  - unfold keys. split_m; running_tac.
  - unfold values. split_m; running_tac.
  - unfold items. split_m; running_tac.
  - unfold reset. split_m; running_tac.
  - unfold stats. split_m; running_tac.
  - unfold on_disk, save_to_disk. split_m; running_tac.
  - unfold load_from_disk. split_m; running_tac.
  - unfold on_disk, quit, save_to_disk. split_m; running_tac.
Qed.

Lemma save_stays_down filename now io disk db :
  _is_running db = false ->
  _is_running (snd (fst (save_to_disk filename now io disk db))) = false.
Proof. intros H. unfold save_to_disk. split_m; running_tac. Qed.

Lemma occur_keeps f e disk p :
  is_load_event e = false -> keeps (obj p) (obj (fst (occur f e disk p))).
Proof.
  intros He. destruct e as [c|now io]; cbn [occur is_load_event] in *.
  - generalize (step_keeps f c disk (obj p) He).
    now destruct (step f c disk (obj p)) as [[o db'] disk'].
  - unfold _worker. destruct (_auto_save_thread p) as [[| |]|];
      try apply keeps_refl.
    generalize (save_to_disk_keeps None now io disk (obj p)).
    now destruct (save_to_disk None now io disk (obj p)) as [[o db'] disk'].
Qed.

Lemma schedule_keeps f es : forall disk p,
  forallb (fun e => negb (is_load_event e)) es = true ->
  keeps (obj p) (obj (fst (schedule f es disk p))).
Proof.
  induction es as [|e es IH]; intros disk p H; cbn [schedule].
  - apply keeps_refl.
  - cbn [forallb] in H. apply andb_true_iff in H. destruct H as [He H].
    apply negb_true_iff in He.
    generalize (occur_keeps f e disk p He).
    destruct (occur f e disk p) as [p' disk']. cbn [fst]. intros Hk.
    eapply keeps_trans; [exact Hk | now apply IH].
Qed.

(** X23: with the auto-save thread running, however its moves fall
    between the caller's operations ([load_from_disk] apart), every state
    of a newly built store keeps the tables in step - every key of the
    expiry table has a value - and the [sets] counter at 0. *)
Theorem autosave_keeps_invariants f name es disk :
  forallb (fun e => negb (is_load_event e)) es = true ->
  ttl_in_data (obj (fst (schedule f es disk (boot name)))) = true
  /\ sets (_stats (obj (fst (schedule f es disk (boot name))))) = 0.
Proof.
  intros H. destruct (schedule_keeps f es disk (boot name) H) as (A & _ & C).
  split; [now apply A | exact C].
Qed.

Lemma autosave_keeps_invariants_witness :
  ttl_in_data
    (obj (fst (schedule glob_match
                 [Worker 0 IoOk; Caller (CallSet (PStr "a") (PInt 1) (PInt 5) 1 1);
                  Worker 60 DumpFails; Worker 60 IoOk;
                  Caller (CallSet (PStr "a") (PInt 2) (PInt 0) 61 61)]
                 [] (boot "pocketdb")))) = true
  /\ sets (_stats
             (obj (fst (schedule glob_match
                          [Worker 0 IoOk;
                           Caller (CallSet (PStr "a") (PInt 1) (PInt 5) 1 1);
                           Worker 60 DumpFails; Worker 60 IoOk;
                           Caller (CallSet (PStr "a") (PInt 2) (PInt 0) 61 61)]
                          [] (boot "pocketdb"))))) = 0.
Proof.
  exact (autosave_keeps_invariants glob_match "pocketdb"
           [Worker 0 IoOk; Caller (CallSet (PStr "a") (PInt 1) (PInt 5) 1 1);
            Worker 60 DumpFails; Worker 60 IoOk;
            Caller (CallSet (PStr "a") (PInt 2) (PInt 0) 61 61)]
           [] eq_refl).
Defined.

Lemma occur_stays_down f e disk p :
  _is_running (obj p) = false ->
  _is_running (obj (fst (occur f e disk p))) = false.
Proof.
  intros Hd. destruct e as [c|now io]; cbn [occur].
  - generalize (step_stays_down f c disk (obj p) Hd).
    now destruct (step f c disk (obj p)) as [[o db'] disk'].
  - unfold _worker. destruct (_auto_save_thread p) as [[| |]|]; try exact Hd.
    generalize (save_stays_down None now io disk (obj p) Hd).
    now destruct (save_to_disk None now io disk (obj p)) as [[o db'] disk'].
Qed.

(** The worker's moves still to come once the flag is down. *)
Lemma worker_winds_down f es : forall disk p pc,
  _is_running (obj p) = false ->
  _auto_save_thread p = Some pc ->
  (match pc with Asleep => 2 | AtTest => 1 | Finished => 0 end
   <= length (filter is_worker_event es))%nat ->
  _auto_save_thread (fst (schedule f es disk p)) = Some Finished
  /\ _is_running (obj (fst (schedule f es disk p))) = false.
Proof.
  induction es as [|e es IH]; intros disk p pc Hd Hpc Hn; cbn [schedule].
  - cbn [filter length] in Hn. destruct pc; try lia. now split.
  - pose proof (occur_stays_down f e disk p Hd) as Hd'.
    destruct e as [c|now io]; cbn [filter is_worker_event length] in Hn;
      cbn [occur] in *.
    + destruct (step f c disk (obj p)) as [[o db'] disk'].
      cbn [fst obj] in Hd'. apply (IH disk' _ pc); auto.
    + unfold _worker in *. rewrite Hpc in *. destruct pc.
      * rewrite Hd in *. apply (IH disk _ Finished); auto. cbn. lia.
      * destruct (save_to_disk None now io disk (obj p)) as [[o db'] disk'].
        apply (IH disk' _ AtTest); auto. lia.
      * apply (IH disk _ Finished); auto. lia.
Qed.

(** X24: once [quit] has cleared the running flag, no operation sets it
    again, and the auto-save worker comes to its end within two moves of
    its own (the wake-up of a sleep in progress, then the test of the
    loop), whatever the caller does in between. *)
Theorem worker_stops_after_quit f es disk p :
  _is_running (obj p) = false ->
  _auto_save_thread p <> None ->
  (2 <= length (filter is_worker_event es))%nat ->
  _auto_save_thread (fst (schedule f es disk p)) = Some Finished
  /\ _is_running (obj (fst (schedule f es disk p))) = false.
Proof.
  intros Hd Hpc Hn. destruct (_auto_save_thread p) as [pc|] eqn:E;
    [|congruence].
  apply (worker_winds_down f es disk p pc Hd E). destruct pc; lia.
Qed.

Lemma worker_stops_after_quit_witness :
  _auto_save_thread
    (fst (schedule glob_match
            [Worker 70 IoOk; Caller (CallGet (PStr "a") PNone 71); Worker 71 IoOk]
            []
            (mkProcess (snd (fst (quit 65 IoOk [] store_a_expiring)))
               (Some Asleep))))
  = Some Finished
  /\ _is_running
       (obj (fst (schedule glob_match
                    [Worker 70 IoOk; Caller (CallGet (PStr "a") PNone 71);
                     Worker 71 IoOk]
                    []
                    (mkProcess (snd (fst (quit 65 IoOk [] store_a_expiring)))
                       (Some Asleep)))))
     = false.
Proof.
  apply (worker_stops_after_quit glob_match
           [Worker 70 IoOk; Caller (CallGet (PStr "a") PNone 71); Worker 71 IoOk]
           []
           (mkProcess (snd (fst (quit 65 IoOk [] store_a_expiring)))
              (Some Asleep))).
  - reflexivity.
  - discriminate.
  - cbn. lia.
Defined.

(** X25: the worker does not test the running flag after its sleep: when
    it wakes it saves, whatever the flag says - so a worker asleep when
    [quit] clears the flag still saves once more.  On a store whose tables
    are in step and with a write that goes through, that move leaves the
    pruned tables in the default file, and only then does the worker
    return to the test of its loop. *)
Theorem worker_saves_once_more now disk p :
  _auto_save_thread p = Some Asleep ->
  wf (obj p) = true ->
  _auto_save_thread (fst (_worker now IoOk disk p)) = Some AtTest
  /\ obj (fst (_worker now IoOk disk p)) = pruned now (obj p)
  /\ Dict.get (default_filename (obj p)) (snd (_worker now IoOk disk p))
     = Some (Pickle (mkBackup (_data (pruned now (obj p)))
                       (Some (_ttl (pruned now (obj p))))
                       (Some (_stats (pruned now (obj p)))))).
Proof.
  intros Hpc Hwf. unfold _worker, save_to_disk. rewrite Hpc.
  rewrite (_prune_expired_wf now _ Hwf). cbn [fst snd obj _auto_save_thread resolve].
  repeat split. now rewrite get_set, String.eqb_refl.
Qed.

Lemma worker_saves_once_more_witness :
  _auto_save_thread
    (fst (_worker 600 IoOk []
            (mkProcess (with_running false store_a_expiring) (Some Asleep))))
  = Some AtTest
  /\ obj (fst (_worker 600 IoOk []
                 (mkProcess (with_running false store_a_expiring) (Some Asleep))))
     = pruned 600 (with_running false store_a_expiring)
  /\ Dict.get (default_filename (with_running false store_a_expiring))
       (snd (_worker 600 IoOk []
               (mkProcess (with_running false store_a_expiring) (Some Asleep))))
     = Some (Pickle (mkBackup
                       (_data (pruned 600 (with_running false store_a_expiring)))
                       (Some (_ttl (pruned 600 (with_running false store_a_expiring))))
                       (Some (_stats (pruned 600
                                        (with_running false store_a_expiring)))))).
Proof.
  exact (worker_saves_once_more 600 []
           (mkProcess (with_running false store_a_expiring) (Some Asleep))
           eq_refl eq_refl).
Defined.
